(** * A shallow embedding of the HTTP/1.x server (TCP adapter, dynamic buffer,
      framer, parser, body readers, response writer and serve loop).

    Buffers are lists of bytes, JavaScript strings obtained by latin1
    decoding are [string]s (one 8-bit character per byte), JavaScript
    numbers that hold lengths are [nat] where the program can only produce
    non-negative values and [Z] where a negative value can flow in. *)

From Stdlib Require Import ZArith Strings.Ascii Strings.Byte DecimalString.
From stdpp Require Import base list strings.

Local Open Scope Z_scope.

(* ------------------------------------------------------------------ *)
(** * Bytes, buffers and the latin1 codec *)

Abbreviation Buffer := (list byte).

#[global] Instance byte_eq_dec : EqDecision byte := Byte.byte_eq_dec.

(** [buf.toString("latin1")] and [Buffer.from(s, "latin1")]. *)
Definition toLatin1 (b : Buffer) : string := String.string_of_list_byte b.
Definition fromLatin1 (s : string) : Buffer := String.list_byte_of_string s.

Definition CR : ascii := "013"%char.
Definition LF : ascii := "010"%char.
Definition CRLF : string := String CR (String LF EmptyString).
Definition CRLFCRLF : string := CRLF +:+ CRLF.

(** [Buffer.alloc(n)]: [n] zero bytes. *)
Definition alloc (n : nat) : Buffer := replicate n x00.

(** Relative index of ECMAScript ([subarray], [copyWithin]): a negative
    index counts from the end, and the result is clamped to [0, len]. *)
Definition rel_index (i : Z) (len : nat) : nat :=
  if i <? 0 then Z.to_nat (Z.max (Z.of_nat len + i) 0)
  else Z.to_nat (Z.min i (Z.of_nat len)).

(** [b.subarray(start, end)]. *)
Definition subarray (b : Buffer) (start end_ : Z) : Buffer :=
  let s := rel_index start (length b) in
  let e := rel_index end_ (length b) in
  take (e - s)%nat (drop s b).

(** [b.copyWithin(target, start, end)]: the bytes of [start, end) are
    written at [target], as if read from a snapshot of [b]; the copy stops
    at the end of [b]. *)
Definition copyWithin (b : Buffer) (target start end_ : Z) : Buffer :=
  let len := length b in
  let to := rel_index target len in
  let from := rel_index start len in
  let final := rel_index end_ len in
  let count := Nat.min (final - from) (len - to) in
  list_inserts to (take count (drop from b)) b.

(** [src.copy(target, targetStart, sourceStart, sourceEnd)] with
    non-negative offsets: the copy is cut at the end of either buffer. *)
Definition copy (src target : Buffer) (targetStart sourceStart sourceEnd : nat)
  : Buffer :=
  list_inserts targetStart
    (take (sourceEnd - sourceStart)%nat (drop sourceStart src)) target.

(** [b.indexOf(pat)]: index of the first occurrence, [-1] when absent. *)
Fixpoint is_prefix (pat l : Buffer) : bool :=
  match pat, l with
  | [], _ => true
  | _ :: _, [] => false
  | p :: pat', c :: l' => if decide (p = c) then is_prefix pat' l' else false
  end.

Fixpoint find_from (pat l : Buffer) (i : nat) : option nat :=
  if is_prefix pat l then Some i
  else match l with
       | [] => None
       | _ :: l' => find_from pat l' (S i)
       end.

Definition indexOf (b : Buffer) (pat : Buffer) : Z :=
  match find_from pat b 0 with
  | Some i => Z.of_nat i
  | None => -1
  end.

(* ------------------------------------------------------------------ *)
(** * JavaScript string built-ins used by the parser *)

(** [s.split(c)] for a one-character separator. *)
Fixpoint split_on_char (c : ascii) (s : string) : list string :=
  match s with
  | EmptyString => [EmptyString]
  | String a s' =>
      if Ascii.eqb a c then EmptyString :: split_on_char c s'
      else match split_on_char c s' with
           | [] => [String a EmptyString]
           | t :: ts => String a t :: ts
           end
  end.

(** [s.split("\r\n")]. *)
Fixpoint split_on_crlf (s : string) : list string :=
  match s with
  | EmptyString => [EmptyString]
  | String a s' =>
      match s' with
      | String b s'' =>
          if Ascii.eqb a CR && Ascii.eqb b LF
          then EmptyString :: split_on_crlf s''
          else match split_on_crlf s' with
               | [] => [String a EmptyString]
               | t :: ts => String a t :: ts
               end
      | EmptyString => [String a EmptyString]
      end
  end.

(** [s.indexOf(c)] for a one-character needle, [None] for [-1]. *)
Fixpoint index_of_char (c : ascii) (s : string) : option nat :=
  match s with
  | EmptyString => None
  | String a s' =>
      if Ascii.eqb a c then Some 0%nat else S <$> index_of_char c s'
  end.

(** [s.slice(i, j)] and [s.slice(i)] for in-range non-negative indices. *)
Definition slice (s : string) (i j : nat) : string :=
  String.substring i (j - i) s.
Definition slice_from (s : string) (i : nat) : string :=
  String.substring i (String.length s - i) s.

(** White space of [String.prototype.trim] among the code points below
    256: TAB, LF, VT, FF, CR, SP and NBSP. *)
Definition is_js_space (a : ascii) : bool :=
  let n := nat_of_ascii a in
  ((9 <=? n) && (n <=? 13) || (n =? 32) || (n =? 160))%nat.

Fixpoint trimStart (s : string) : string :=
  match s with
  | EmptyString => EmptyString
  | String a s' => if is_js_space a then trimStart s' else s
  end.

Fixpoint trimEnd (s : string) : string :=
  match s with
  | EmptyString => EmptyString
  | String a s' =>
      match trimEnd s' with
      | EmptyString => if is_js_space a then EmptyString
                       else String a EmptyString
      | t => String a t
      end
  end.

Definition trim (s : string) : string := trimEnd (trimStart s).

(** [toLowerCase] on code points below 256: A-Z and the Latin-1 capitals
    (C0-DE except D7) move up by 32. *)
Definition lower_char (a : ascii) : ascii :=
  let n := nat_of_ascii a in
  if ((65 <=? n) && (n <=? 90)
      || (192 <=? n) && (n <=? 222) && negb (n =? 215))%nat
  then ascii_of_nat (n + 32) else a.

Fixpoint toLowerCase (s : string) : string :=
  match s with
  | EmptyString => EmptyString
  | String a s' => String (lower_char a) (toLowerCase s')
  end.

(** [parseInt(s, 10)]: leading white space, an optional sign, then the
    longest run of decimal digits; [None] stands for NaN.  The value is the
    exact integer (a double represents it exactly up to 2^53). *)
Definition digit_of (a : ascii) : option Z :=
  let n := nat_of_ascii a in
  if ((48 <=? n) && (n <=? 57))%nat then Some (Z.of_nat (n - 48)) else None.

Fixpoint digits_value (acc : Z) (s : string) : Z :=
  match s with
  | EmptyString => acc
  | String a s' =>
      match digit_of a with
      | Some d => digits_value (10 * acc + d) s'
      | None => acc
      end
  end.

Definition starts_with_digit (s : string) : bool :=
  match s with
  | String a _ => bool_decide (is_Some (digit_of a))
  | EmptyString => false
  end.

Definition parseInt (s : string) : option Z :=
  match trimStart s with
  | String "-" s' =>
      if starts_with_digit s' then Some (- digits_value 0 s') else None
  | String "+" s' =>
      if starts_with_digit s' then Some (digits_value 0 s') else None
  | s' => if starts_with_digit s' then Some (digits_value 0 s') else None
  end.

(** [`${n}`] for an integer [n]. *)
Definition number_to_string (n : Z) : string :=
  NilZero.string_of_int (Z.to_int n).

(* ------------------------------------------------------------------ *)
(** * Exceptions and results *)

Inductive JsExn : Type :=
  | HTTPError (code : Z) (message : string)
  | JsError (message : string).

(** Result of a synchronous call: a value or a thrown exception. *)
Inductive Result (A : Type) : Type :=
  | Ok (a : A)
  | Throw (e : JsExn).
Arguments Ok {A} a.
Arguments Throw {A} e.

(* ------------------------------------------------------------------ *)
(** * Dynamic buffer *)

Record DynBuf : Type := mkDynBuf { buf_data : Buffer; buf_length : nat }.

(** [while (cap < newLen) cap *= 2;].  The loop runs at most [newLen]
    rounds from a positive [cap]; [growCap_unfold] below gives the loop
    equation. *)
Fixpoint growLoop (fuel : nat) (cap newLen : nat) : nat :=
  match fuel with
  | O => cap
  | S fuel' =>
      if (cap <? newLen)%nat then growLoop fuel' (cap * 2) newLen else cap
  end.

Definition growCap (cap newLen : nat) : nat := growLoop newLen cap newLen.

Definition bufPush (buf : DynBuf) (data : Buffer) : DynBuf :=
  let newLen := (buf_length buf + length data)%nat in
  let storage :=
    if (length (buf_data buf) <? newLen)%nat then
      let cap := growCap (Nat.max (length (buf_data buf)) 32) newLen in
      let grown := alloc cap in
      copy (buf_data buf) grown 0 0 (buf_length buf)
    else buf_data buf in
  mkDynBuf (copy data storage (buf_length buf) 0 (length data)) newLen.

(** [bufPop(buf, len)].  Every call in the program passes
    [len <= buf.length], so the new length is never negative. *)
Definition bufPop (buf : DynBuf) (len : Z) : DynBuf :=
  mkDynBuf (copyWithin (buf_data buf) 0 len (Z.of_nat (buf_length buf)))
           (Z.to_nat (Z.of_nat (buf_length buf) - len)).

(** The bytes the program treats as buffered:
    [buf.data.subarray(0, buf.length)]. *)
Definition occupied (buf : DynBuf) : Buffer :=
  subarray (buf_data buf) 0 (Z.of_nat (buf_length buf)).

Definition emptyBuf : DynBuf := mkDynBuf (alloc 0) 0.

(* ------------------------------------------------------------------ *)
(** * Request parsing and framing *)

Definition kMaxHeaderLen : nat := 8 * 1024.

Record HTTPReq : Type := mkHTTPReq {
  method : string;
  uri : Buffer;
  version : string;
  headers : list Buffer
}.

Definition splitLines (data : Buffer) : list Buffer :=
  fromLatin1 <$> split_on_crlf (toLatin1 data).

Definition parseRequestLine (line : Buffer)
  : Result (string * Buffer * string) :=
  match split_on_char " " (toLatin1 line) with
  | [method; rawUri; protocol] =>
      if negb (String.prefix "HTTP/" protocol)
      then Throw (HTTPError 400 "Bad version")
      else match take 2 (split_on_char "/" protocol) !! 1%nat with
           | None | Some EmptyString => Throw (HTTPError 400 "Bad version")
           | Some version => Ok (method, fromLatin1 rawUri, version)
           end
  | _ => Throw (HTTPError 400 "Bad request line")
  end.

Definition colon : byte := x3a.

Definition validateHeader (h : Buffer) : bool :=
  if (length h =? 0)%nat then true else bool_decide (colon ∈ h).

(** The loop of [parseHTTPReq] over [lines.slice(1, -1)]. *)
Fixpoint collectHeaders (lines : list Buffer) : Result (list Buffer) :=
  match lines with
  | [] => Ok []
  | h :: rest =>
      if (length h =? 0)%nat then collectHeaders rest
      else if negb (validateHeader h)
      then Throw (HTTPError 400 "Invalid header field")
      else match collectHeaders rest with
           | Ok hs => Ok (h :: hs)
           | Throw e => Throw e
           end
  end.

(** [lines.slice(1, -1)]. *)
Definition slice_1_m1 {A} (l : list A) : list A :=
  take (length l - 2)%nat (drop 1 l).

Definition parseHTTPReq (data : Buffer) : Result HTTPReq :=
  let lines := splitLines data in
  match lines !! 0%nat with
  | None => Throw (HTTPError 400 "Missing request line")
  | Some requestLine =>
      match parseRequestLine requestLine with
      | Throw e => Throw e
      | Ok (method, uri, version) =>
          match collectHeaders (slice_1_m1 lines) with
          | Throw e => Throw e
          | Ok headers => Ok (mkHTTPReq method uri version headers)
          end
      end
  end.

(** [cutMessage] returns the parsed request ([None] for [null]) together
    with the buffer as the call leaves it. *)
Definition cutMessage (buf : DynBuf) : Result (option HTTPReq * DynBuf) :=
  let idx := indexOf (occupied buf) (fromLatin1 CRLFCRLF) in
  if idx <? 0 then
    if (kMaxHeaderLen <=? buf_length buf)%nat
    then Throw (HTTPError 413 "Header too large")
    else Ok (None, buf)
  else
    match parseHTTPReq (subarray (buf_data buf) 0 (idx + 4)) with
    | Throw e => Throw e
    | Ok msg => Ok (Some msg, bufPop buf (idx + 4))
    end.

Fixpoint fieldGet (headers : list Buffer) (key : string) : option Buffer :=
  match headers with
  | [] => None
  | h :: rest =>
      let line := toLatin1 h in
      match index_of_char ":" line with
      | None => fieldGet rest key
      | Some idx =>
          let name := trim (slice line 0 idx) in
          if String.eqb (toLowerCase name) (toLowerCase key)
          then Some (fromLatin1 (trim (slice_from line (idx + 1))))
          else fieldGet rest key
      end
  end.

(** Feeding a request in chunks, the way the serve loop does it: call the
    framer, and while it reports an incomplete header block append the next
    chunk and call it again. *)
Fixpoint feedChunks (buf : DynBuf) (chunks : list Buffer)
  : Result (option HTTPReq) :=
  match cutMessage buf with
  | Throw e => Throw e
  | Ok (Some msg, _) => Ok (Some msg)
  | Ok (None, buf') =>
      match chunks with
      | [] => Ok None
      | c :: rest => feedChunks (bufPush buf' c) rest
      end
  end.

(** Appending everything at once and calling the framer once. *)
Definition feedWhole (buf : DynBuf) (bytes : Buffer)
  : Result (option HTTPReq) :=
  match cutMessage (bufPush buf bytes) with
  | Throw e => Throw e
  | Ok (msg, _) => Ok msg
  end.

(* ------------------------------------------------------------------ *)
(** * The socket and the promise-based connection wrapper *)

(** What the transport does next when the socket is flowing. *)
Inductive SockEvent : Type :=
  | EvData (data : Buffer)
  | EvEnd
  | EvError (e : JsExn).

(** The socket as the program sees it: whether delivery is paused, the
    events still to come, the chunks whose write was acknowledged, the
    outcome of the coming writes ([Some e] is a failed write; past the end of
    the list every write succeeds), and whether it was destroyed. *)
Record Socket : Type := mkSocket {
  paused : bool;
  incoming : list SockEvent;
  written : list Buffer;
  write_results : list (option JsExn);
  destroyed : bool
}.

(** [reader] is [true] while a read promise is waiting to be settled. *)
Record TCPConn : Type := mkTCPConn {
  socket : Socket;
  err : option JsExn;
  ended : bool;
  reader : bool
}.

(** How a promise on a buffer was settled. *)
Inductive Settled : Type :=
  | Resolved (data : Buffer)
  | Rejected (e : JsExn).

Definition set_paused (p : bool) (s : Socket) : Socket :=
  mkSocket p (incoming s) (written s) (write_results s) (destroyed s).
Definition set_incoming (evs : list SockEvent) (s : Socket) : Socket :=
  mkSocket (paused s) evs (written s) (write_results s) (destroyed s).

Definition soInit (s : Socket) : TCPConn := mkTCPConn s None false false.

(** The three handlers that [soInit] installs.  Each returns the way it
    settles the waiting read, if it does. *)
Definition onData (data : Buffer) (conn : TCPConn)
  : option Settled * TCPConn :=
  if negb (reader conn) then (None, conn)
  else (Some (Resolved data),
        mkTCPConn (set_paused true (socket conn)) (err conn) (ended conn)
                  false).

Definition onEnd (conn : TCPConn) : option Settled * TCPConn :=
  if reader conn
  then (Some (Resolved []), mkTCPConn (socket conn) (err conn) true false)
  else (None, mkTCPConn (socket conn) (err conn) true (reader conn)).

Definition onError (e : JsExn) (conn : TCPConn) : option Settled * TCPConn :=
  if reader conn
  then (Some (Rejected e), mkTCPConn (socket conn) (Some e) (ended conn) false)
  else (None, mkTCPConn (socket conn) (Some e) (ended conn) (reader conn)).

Definition deliver (ev : SockEvent) (conn : TCPConn)
  : option Settled * TCPConn :=
  match ev with
  | EvData d => onData d conn
  | EvEnd => onEnd conn
  | EvError e => onError e conn
  end.

(** The executor of the promise that [soRead] returns: it settles the
    promise at once on a latched end or error, and otherwise registers the
    reader and resumes the socket ([None]: the promise is pending). *)
Definition soRead (conn : TCPConn) : option Settled * TCPConn :=
  if ended conn then (Some (Resolved []), conn)
  else match err conn with
       | Some e => (Some (Rejected e), conn)
       | None =>
           (None,
            mkTCPConn (set_paused false (socket conn)) (err conn)
                      (ended conn) true)
       end.

(** Result of awaiting: a value, an exception, a promise that is never
    settled, or a loop of the model that was cut short. *)
Inductive Outcome (A : Type) : Type :=
  | Done (a : A)
  | Raise (e : JsExn)
  | Blocked
  | OutOfFuel.
Arguments Done {A} a.
Arguments Raise {A} e.
Arguments Blocked {A}.
Arguments OutOfFuel {A}.

Definition outcome_of_settled (s : Settled) : Outcome Buffer :=
  match s with
  | Resolved d => Done d
  | Rejected e => Raise e
  end.

(** While the read is pending the socket delivers its events in order,
    until a handler settles the promise. *)
Fixpoint pump (evs : list SockEvent) (conn : TCPConn)
  : Outcome Buffer * TCPConn :=
  match evs with
  | [] =>
      (Blocked,
       mkTCPConn (set_incoming [] (socket conn)) (err conn) (ended conn)
                 (reader conn))
  | ev :: evs' =>
      match deliver ev conn with
      | (Some s, conn') =>
          (outcome_of_settled s,
           mkTCPConn (set_incoming evs' (socket conn')) (err conn')
                     (ended conn') (reader conn'))
      | (None, conn') => pump evs' conn'
      end
  end.

(** [await soRead(conn)]. *)
Definition awaitRead (conn : TCPConn) : Outcome Buffer * TCPConn :=
  match soRead conn with
  | (Some s, conn') => (outcome_of_settled s, conn')
  | (None, conn') => pump (incoming (socket conn')) conn'
  end.

(** [await soWrite(conn, data)]. *)
Definition soWrite (conn : TCPConn) (data : Buffer)
  : Outcome unit * TCPConn :=
  let s := socket conn in
  match write_results s with
  | Some e :: rest =>
      (Raise e,
       mkTCPConn (mkSocket (paused s) (incoming s) (written s) rest
                           (destroyed s))
                 (err conn) (ended conn) (reader conn))
  | _ =>
      (Done tt,
       mkTCPConn (mkSocket (paused s) (incoming s) (written s ++ [data])
                           (tail (write_results s)) (destroyed s))
                 (err conn) (ended conn) (reader conn))
  end.

(* ------------------------------------------------------------------ *)
(** * Body readers, with their private state in a store *)

(** The variables a reader closure captures: [data] and [done] for a memory
    reader, [remain] for a reader over the connection. *)
Inductive ReaderCell : Type :=
  | MemCell (data : Buffer) (done : bool)
  | ConnCell (remain : Z).

(** [length] and the closure [read], given by the address of its cell. *)
Record BodyReader : Type := mkBodyReader {
  body_length : Z;
  body_cell : nat
}.

Record HTTPRes : Type := mkHTTPRes {
  code : Z;
  res_headers : list Buffer;
  body : BodyReader
}.

(** One connection: the wrapper, the buffer of [serveClient] and the
    reader closures created so far. *)
Record World : Type := mkWorld {
  w_conn : TCPConn;
  w_buf : DynBuf;
  w_cells : list ReaderCell
}.

Definition M (A : Type) : Type := World -> Outcome A * World.

Definition ret {A} (a : A) : M A := fun w => (Done a, w).
Definition raise {A} (e : JsExn) : M A := fun w => (Raise e, w).

Definition bind {A B} (m : M A) (k : A -> M B) : M B :=
  fun w =>
    match m w with
    | (Done a, w') => k a w'
    | (Raise e, w') => (Raise e, w')
    | (Blocked, w') => (Blocked, w')
    | (OutOfFuel, w') => (OutOfFuel, w')
    end.

Declare Scope io_scope.
Delimit Scope io_scope with io.
Notation "'let*' x := m 'in' k" := (bind m (fun x => k))
  (at level 10, x pattern, m at level 100, k at level 200) : io_scope.
Notation "m ;; k" := (bind m (fun _ => k))
  (at level 100, right associativity) : io_scope.
Local Open Scope io_scope.

Definition liftResult {A} (r : Result A) : M A :=
  match r with
  | Ok a => ret a
  | Throw e => raise e
  end.

Definition getBuf : M DynBuf := fun w => (Done (w_buf w), w).
Definition setBuf (b : DynBuf) : M unit :=
  fun w => (Done tt, mkWorld (w_conn w) b (w_cells w)).

Definition io_soRead : M Buffer :=
  fun w =>
    let '(r, c) := awaitRead (w_conn w) in
    (r, mkWorld c (w_buf w) (w_cells w)).

Definition io_soWrite (data : Buffer) : M unit :=
  fun w =>
    let '(r, c) := soWrite (w_conn w) data in
    (r, mkWorld c (w_buf w) (w_cells w)).

Definition newCell (c : ReaderCell) : M nat :=
  fun w =>
    (Done (length (w_cells w)),
     mkWorld (w_conn w) (w_buf w) (w_cells w ++ [c])).
Definition setCell (a : nat) (c : ReaderCell) : M unit :=
  fun w => (Done tt, mkWorld (w_conn w) (w_buf w) (<[a:=c]> (w_cells w))).

Definition readerFromMemory (data : Buffer) : M BodyReader :=
  let* a := newCell (MemCell data false) in
  ret (mkBodyReader (Z.of_nat (length data)) a).

Definition readerFromConnLength (remain : Z) : M BodyReader :=
  let* a := newCell (ConnCell remain) in
  ret (mkBodyReader remain a).

(** [read] of a memory reader whose cell is at [a]. *)
Definition readMem (a : nat) (data : Buffer) (done : bool) : M Buffer :=
  if done then ret []
  else setCell a (MemCell data true) ;; ret data.

(** [read] of a connection reader whose cell is at [a]. *)
Definition readConn (a : nat) (remain : Z) : M Buffer :=
  if remain =? 0 then ret []
  else
    let* buf := getBuf in
    (if (buf_length buf =? 0)%nat then
       let* data := io_soRead in
       setBuf (bufPush buf data) ;;
       if (length data =? 0)%nat then raise (JsError "Unexpected EOF")
       else ret tt
     else ret tt) ;;
    let* buf := getBuf in
    let consume := Z.min (Z.of_nat (buf_length buf)) remain in
    setCell a (ConnCell (remain - consume)) ;;
    let data := subarray (buf_data buf) 0 consume in
    setBuf (bufPop buf consume) ;;
    ret data.

(** [await r.read()].  Every reader the program creates has its cell in
    the store; a reader without one can only be written by hand. *)
Definition readBody (r : BodyReader) : M Buffer :=
  fun w =>
    match w_cells w !! body_cell r with
    | Some (MemCell data done) => readMem (body_cell r) data done w
    | Some (ConnCell remain) => readConn (body_cell r) remain w
    | None => (Raise (JsError "read is not a function"), w)
    end.

Definition is_chunked (hs : list Buffer) : bool :=
  match fieldGet hs "Transfer-Encoding" with
  | Some v => bool_decide (v = fromLatin1 "chunked")
  | None => false
  end.

Definition readerFromReq (req : HTTPReq) : M BodyReader :=
  let contentLen := fieldGet (headers req) "Content-Length" in
  let chunked := is_chunked (headers req) in
  let bodyAllowed :=
    negb (String.eqb (method req) "GET" || String.eqb (method req) "HEAD") in
  if negb bodyAllowed then readerFromMemory []
  else match contentLen with
       | Some v =>
           match parseInt (toLatin1 v) with
           | None => raise (HTTPError 400 "Bad Content-Length")
           | Some bodyLen => readerFromConnLength bodyLen
           end
       | None =>
           if chunked then readerFromMemory [] else readerFromMemory []
       end.

(* ------------------------------------------------------------------ *)
(** * Response writer *)

Definition NL : string := String LF EmptyString.

Definition encodeHTTPResp (res : HTTPRes) : Buffer :=
  let lines :=
    ["HTTP/1.1 " +:+ number_to_string (code res) +:+ " OK"]
      ++ (toLatin1 <$> res_headers res) ++ [CRLF] in
  fromLatin1 (String.concat CRLF lines).

Definition contentLengthLine (n : Z) : Buffer :=
  fromLatin1 ("Content-Length: " +:+ number_to_string n).

(** The [while (true)] loop of [writeHTTPResp]. *)
Fixpoint writeBody (fuel : nat) (r : BodyReader) : M unit :=
  match fuel with
  | O => fun w => (OutOfFuel, w)
  | S fuel' =>
      let* data := readBody r in
      if (length data =? 0)%nat then ret tt
      else io_soWrite data ;; writeBody fuel' r
  end.

(** [res.headers.push(...)] changes the caller's object: the response as
    the call leaves it is returned next to the outcome. *)
Definition writeHTTPResp (fuel : nat) (res : HTTPRes) (w : World)
  : Outcome unit * HTTPRes * World :=
  if body_length (body res) <? 0
  then (Raise (JsError "TODO: chunked encoding"), res, w)
  else
    let res' :=
      mkHTTPRes (code res)
        (res_headers res ++ [contentLengthLine (body_length (body res))])
        (body res) in
    let '(r, w') :=
      (io_soWrite (encodeHTTPResp res') ;; writeBody fuel (body res')) w in
    (r, res', w').

(** The same call for a caller that drops the response afterwards. *)
Definition io_writeHTTPResp (fuel : nat) (res : HTTPRes) : M unit :=
  fun w => let '(r, _, w') := writeHTTPResp fuel res w in (r, w').

(* ------------------------------------------------------------------ *)
(** * Request handler and serve loop *)

Definition handleReq (req : HTTPReq) (body : BodyReader) : M HTTPRes :=
  let* resp :=
    (if String.eqb (toLatin1 (uri req)) "/echo" then ret body
     else readerFromMemory (fromLatin1 ("hello world." +:+ NL))) in
  ret (mkHTTPRes 200 [fromLatin1 "Server: my_first_http_server"] resp).

(** [while ((await reqBody.read()).length > 0) {}]. *)
Fixpoint drainBody (fuel : nat) (r : BodyReader) : M unit :=
  match fuel with
  | O => fun w => (OutOfFuel, w)
  | S fuel' =>
      let* data := readBody r in
      if (0 <? length data)%nat then drainBody fuel' r else ret tt
  end.

Definition io_cutMessage : M (option HTTPReq) :=
  let* buf := getBuf in
  let* r := liftResult (cutMessage buf) in
  setBuf (snd r) ;; ret (fst r).

(** The [while (true)] loop of [serveClient]. *)
Fixpoint serveLoop (fuel : nat) : M unit :=
  match fuel with
  | O => fun w => (OutOfFuel, w)
  | S fuel' =>
      let* msg := io_cutMessage in
      match msg with
      | None =>
          let* data := io_soRead in
          let* buf := getBuf in
          setBuf (bufPush buf data) ;;
          let* buf := getBuf in
          if (length data =? 0)%nat && (buf_length buf =? 0)%nat then ret tt
          else if (length data =? 0)%nat
          then raise (HTTPError 400 "Unexpected EOF")
          else serveLoop fuel'
      | Some msg =>
          let* reqBody := readerFromReq msg in
          let* res := handleReq msg reqBody in
          io_writeHTTPResp fuel' res ;;
          if String.eqb (version msg) "1.0" then ret tt
          else drainBody fuel' reqBody ;; serveLoop fuel'
      end
  end.

Definition serveClient (fuel : nat) : M unit :=
  setBuf emptyBuf ;; serveLoop fuel.

Definition destroy : M unit :=
  fun w =>
    let c := w_conn w in
    let s := socket c in
    (Done tt,
     mkWorld
       (mkTCPConn
          (mkSocket (paused s) (incoming s) (written s) (write_results s) true)
          (err c) (ended c) (reader c))
       (w_buf w) (w_cells w)).

(** [newConn]: serve, answer an [HTTPError] with one best-effort error
    response, and destroy the socket on every path. *)
Definition newConn (fuel : nat) : M unit :=
  fun w =>
    let w0 := mkWorld (soInit (socket (w_conn w))) (w_buf w) (w_cells w) in
    let '(r, w1) := serveClient fuel w0 in
    match r with
    | Raise (HTTPError c msg) =>
        let '(r2, w2) :=
          (let* b := readerFromMemory (fromLatin1 (msg +:+ NL)) in
           io_writeHTTPResp fuel (mkHTTPRes c [] b)) w1 in
        match r2 with
        | Blocked => (Blocked, w2)
        | OutOfFuel => (OutOfFuel, w2)
        | _ => destroy w2
        end
    | Blocked => (Blocked, w1)
    | OutOfFuel => (OutOfFuel, w1)
    | _ => destroy w1
    end.

(* ------------------------------------------------------------------ *)
(** * Reference notions the properties are stated against *)

(** A buffer is well formed when the occupied length fits the storage. *)
Definition buf_wf (b : DynBuf) : Prop :=
  (buf_length b <= length (buf_data b))%nat.

(** [bytes] contains [pat] somewhere. *)
Definition contains (bytes pat : Buffer) : Prop :=
  exists pre post, bytes = pre ++ pat ++ post.

Definition terminator : Buffer := fromLatin1 CRLFCRLF.

(** Operations on a buffer, and the sequence of bytes they leave: what was
    appended, less what was consumed from the front. *)
Inductive BufOp : Type :=
  | OpAppend (data : Buffer)
  | OpConsume (n : nat).

Definition applyOp (b : DynBuf) (op : BufOp) : DynBuf :=
  match op with
  | OpAppend d => bufPush b d
  | OpConsume n => bufPop b (Z.of_nat n)
  end.

Definition runOps (ops : list BufOp) (b : DynBuf) : DynBuf :=
  foldl applyOp b ops.

Definition contentsOp (l : Buffer) (op : BufOp) : Buffer :=
  match op with
  | OpAppend d => l ++ d
  | OpConsume n => drop n l
  end.

Definition contents (ops : list BufOp) : Buffer := foldl contentsOp [] ops.

(** Every consume takes at most what is there at that point. *)
Fixpoint opsValid (l : Buffer) (ops : list BufOp) : Prop :=
  match ops with
  | [] => True
  | op :: rest =>
      match op with
      | OpAppend _ => True
      | OpConsume n => (n <= length l)%nat
      end /\ opsValid (contentsOp l op) rest
  end.

(** [k] successive calls of [read] on one reader, with every outcome. *)
Fixpoint readMany (k : nat) (r : BodyReader) (w : World)
  : list (Outcome Buffer) * World :=
  match k with
  | O => ([], w)
  | S k' =>
      let '(o, w1) := readBody r w in
      let '(os, w2) := readMany k' r w1 in
      (o :: os, w2)
  end.

(** Number of bytes the successful reads yielded. *)
Fixpoint yielded (os : list (Outcome Buffer)) : nat :=
  match os with
  | [] => 0%nat
  | Done d :: rest => (length d + yielded rest)%nat
  | _ :: rest => yielded rest
  end.

(** The body as the writer is meant to stream it: [read] is called again
    and again, each non-empty chunk is written, and the first empty chunk
    ends it.  [streams r w cs w'] holds when this goes through from [w] with
    the chunks [cs] and ends in [w']. *)
Inductive streams (r : BodyReader) : World -> list Buffer -> World -> Prop :=
  | streams_end w w' :
      readBody r w = (Done [], w') ->
      streams r w [] w'
  | streams_chunk w w1 w2 w' d cs :
      readBody r w = (Done d, w1) ->
      d <> [] ->
      io_soWrite d w1 = (Done tt, w2) ->
      streams r w2 cs w' ->
      streams r w (d :: cs) w'.

(** A sequence of reads and socket events on a connection. *)
Inductive ConnStep : Type :=
  | StepRead
  | StepEvent (ev : SockEvent).

Definition connStep (conn : TCPConn) (s : ConnStep) : TCPConn :=
  match s with
  | StepRead => snd (soRead conn)
  | StepEvent ev => snd (deliver ev conn)
  end.

Definition connSteps (steps : list ConnStep) (conn : TCPConn) : TCPConn :=
  foldl connStep conn steps.

(** What the framer answers, as a function of the occupied bytes alone. *)
Definition frame (bytes : Buffer) : Result (option HTTPReq) :=
  let idx := indexOf bytes terminator in
  if idx <? 0 then
    if (kMaxHeaderLen <=? length bytes)%nat
    then Throw (HTTPError 413 "Header too large")
    else Ok None
  else
    match parseHTTPReq (take (Z.to_nat (idx + 4)) bytes) with
    | Throw e => Throw e
    | Ok msg => Ok (Some msg)
    end.

(** A request whose header block is longer than the limit, cut in two
    after 8192 bytes. *)
Definition longRequest : Buffer :=
  fromLatin1 ("GET / HTTP/1.1" +:+ CRLF +:+ "X: ")
    ++ replicate (8 * 1024) "a"%byte ++ fromLatin1 CRLFCRLF.

Definition longRequestChunks : list Buffer :=
  [take (8 * 1024) longRequest; drop (8 * 1024) longRequest].

(** A POST request that declares a negative body length. *)
Definition negativeLengthReq : HTTPReq :=
  mkHTTPReq "POST" (fromLatin1 "/echo") "1.1"
            [fromLatin1 "Content-Length: -5"].

(** A POST request whose declared length has trailing letters. *)
Definition trailingGarbageReq : HTTPReq :=
  mkHTTPReq "POST" (fromLatin1 "/echo") "1.1"
            [fromLatin1 "Content-Length: 12abc"].

(** A connection that has delivered nothing yet and will deliver the given
    events, with an empty buffer and no reader. *)
Definition freshWorld (evs : list SockEvent) : World :=
  mkWorld (soInit (mkSocket true evs [] [] false)) emptyBuf [].

(** The chunks written to the socket so far. *)
Definition wire (w : World) : list Buffer := written (socket (w_conn w)).

(** The response as [writeHTTPResp] leaves it: one more header line. *)
Definition withContentLength (res : HTTPRes) : HTTPRes :=
  mkHTTPRes (code res)
    (res_headers res ++ [contentLengthLine (body_length (body res))])
    (body res).

(** The next write on the connection is acknowledged. *)
Definition nextWriteOk (w : World) : Prop :=
  forall e rest, write_results (socket (w_conn w)) <> Some e :: rest.

(** A memory reader over two bytes, already in the store. *)
Definition twoByteWorld : World :=
  mkWorld (soInit (mkSocket true [] [] [] false)) emptyBuf
          [MemCell (fromLatin1 "hi") false].

Definition twoByteRes : HTTPRes :=
  mkHTTPRes 200 [fromLatin1 "Server: x"] (mkBodyReader 2 0).

(** Two HTTP/1.0 requests arriving in one chunk. *)
Definition twoRequests : Buffer :=
  fromLatin1 ("GET /a HTTP/1.0" +:+ CRLFCRLF +:+ "GET /b HTTP/1.0" +:+ CRLFCRLF).

Definition secondRequest : Buffer :=
  fromLatin1 ("GET /b HTTP/1.0" +:+ CRLFCRLF).

(** The serve loop at a point where [bytes] are buffered and the events
    [evs] are still to come. *)
Definition bufferedWorld (bytes : Buffer) (evs : list SockEvent) : World :=
  mkWorld (soInit (mkSocket true evs [] [] false)) (bufPush emptyBuf bytes) [].

(** One iteration of the serve loop after a request was extracted, without
    what follows the write. *)
Definition serveOnce (fuel : nat) (msg : HTTPReq) : M unit :=
  let* reqBody := readerFromReq msg in
  let* res := handleReq msg reqBody in
  io_writeHTTPResp fuel res.

(** A connection on which a pending read saw the clean end, and the
    transport then reported an error. *)
Definition idleSocket : Socket := mkSocket true [] [] [] false.

Definition resetError : JsExn := JsError "read ECONNRESET".

Definition endThenError : TCPConn :=
  connSteps [StepRead; StepEvent EvEnd; StepEvent (EvError resetError)]
            (soInit idleSocket).

(** A reader as the program creates it: its cell is in the store, and for
    a connection reader the bytes to go are the declared length. *)
Definition readerFresh (r : BodyReader) (w : World) : Prop :=
  w_cells w !! body_cell r = Some (ConnCell (body_length r))
  \/ exists data, w_cells w !! body_cell r = Some (MemCell data false).

(* ------------------------------------------------------------------ *)
(** * The echo servers *)

(** The line-oriented echo server frames its input at line feeds. *)
Module LineEcho.

Definition newline : Buffer := [x0a].

(** [CutMessage]: the first line with its line feed, if there is one. *)
Definition CutMessage (buf : DynBuf) : option Buffer * DynBuf :=
  let idx := indexOf (occupied buf) newline in
  if idx <? 0 then (None, buf)
  else (Some (subarray (buf_data buf) 0 (idx + 1)), bufPop buf (idx + 1)).

End LineEcho.

(** The promise-based echo server.  Its [soInit] installs the handlers
    modelled above; its [soRead] tests the error before the end, and its
    [soWrite] refuses to write once an error is stored.  The calls of
    [console.assert] and [console.log] change nothing. *)
Module Echo.

Definition soRead (conn : TCPConn) : option Settled * TCPConn :=
  match err conn with
  | Some e => (Some (Rejected e), conn)
  | None =>
      if ended conn then (Some (Resolved []), conn)
      else (None,
            mkTCPConn (set_paused false (socket conn)) (err conn)
                      (ended conn) true)
  end.

Definition awaitRead (conn : TCPConn) : Outcome Buffer * TCPConn :=
  match soRead conn with
  | (Some s, conn') => (outcome_of_settled s, conn')
  | (None, conn') => pump (incoming (socket conn')) conn'
  end.

Definition soWrite (conn : TCPConn) (data : Buffer)
  : Outcome unit * TCPConn :=
  match err conn with
  | Some e => (Raise e, conn)
  | None => soWrite conn data
  end.

(** The [while (true)] loop of [serveClient]. *)
Fixpoint serveLoop (fuel : nat) (conn : TCPConn) : Outcome unit * TCPConn :=
  match fuel with
  | O => (OutOfFuel, conn)
  | S fuel' =>
      match awaitRead conn with
      | (Done data, c1) =>
          if (length data =? 0)%nat then (Done tt, c1)
          else match soWrite c1 data with
               | (Done _, c2) => serveLoop fuel' c2
               | (Raise e, c2) => (Raise e, c2)
               | (Blocked, c2) => (Blocked, c2)
               | (OutOfFuel, c2) => (OutOfFuel, c2)
               end
      | (Raise e, c1) => (Raise e, c1)
      | (Blocked, c1) => (Blocked, c1)
      | (OutOfFuel, c1) => (OutOfFuel, c1)
      end
  end.

Definition serveClient (fuel : nat) (s : Socket) : Outcome unit * TCPConn :=
  serveLoop fuel (soInit s).

Definition destroySocket (conn : TCPConn) : TCPConn :=
  let s := socket conn in
  mkTCPConn
    (mkSocket (paused s) (incoming s) (written s) (write_results s) true)
    (err conn) (ended conn) (reader conn).

(** [newConn]: the exception is logged, the socket destroyed. *)
Definition newConn (fuel : nat) (s : Socket) : Outcome unit * TCPConn :=
  match serveClient fuel s with
  | (Blocked, c) => (Blocked, c)
  | (OutOfFuel, c) => (OutOfFuel, c)
  | (_, c) => (Done tt, destroySocket c)
  end.

End Echo.

(** Every coming write on the connection is acknowledged. *)
Definition writesOk (w : World) : Prop :=
  Forall (fun r => r = None) (write_results (socket (w_conn w))).

(** No data event carries an empty chunk (the transport never delivers
    one). *)
Definition dataNonEmpty (evs : list SockEvent) : Prop :=
  Forall (fun ev => ev <> EvData []) evs.

(** A reader whose state matches its declared length: a connection reader
    that still owes all of it, or an unread memory reader over that many
    bytes. *)
Definition readerExact (r : BodyReader) (w : World) : Prop :=
  w_cells w !! body_cell r = Some (ConnCell (body_length r))
  \/ exists data,
       w_cells w !! body_cell r = Some (MemCell data false)
       /\ body_length r = Z.of_nat (length data).

(** The character [c] does not occur in [s]. *)
Definition lacks (c : ascii) (s : string) : Prop := index_of_char c s = None.

(** A header block in the wire format the server reads: the request line,
    the header lines and an empty line, each closed by CRLF. *)
Definition headerBlock (m : string) (u : Buffer) (v : string)
           (hs : list Buffer) : Buffer :=
  fromLatin1 (m +:+ " " +:+ toLatin1 u +:+ " HTTP/" +:+ v +:+ CRLF
              +:+ foldr (fun h acc => toLatin1 h +:+ CRLF +:+ acc) CRLF hs).

(** Reads and socket events on a connection of the echo server. *)
Definition echoStep (conn : TCPConn) (s : ConnStep) : TCPConn :=
  match s with
  | StepRead => snd (Echo.soRead conn)
  | StepEvent ev => snd (deliver ev conn)
  end.

Definition echoSteps (steps : list ConnStep) (conn : TCPConn) : TCPConn :=
  foldl echoStep conn steps.

Definition noErrorEvent (s : ConnStep) : Prop :=
  forall e, s <> StepEvent (EvError e).

(** Two GET requests with version 1.1 arriving in one chunk. *)
Definition twoKeepAliveRequests : Buffer :=
  fromLatin1 ("GET /a HTTP/1.1" +:+ CRLFCRLF +:+ "GET /b HTTP/1.1" +:+ CRLFCRLF).

(* ------------------------------------------------------------------ *)
(** * Lemmas on buffer primitives *)

Section BufferPrimitives.
Implicit Types (b src target : Buffer) (buf : DynBuf).

Lemma rel_index_of_nat (n len : nat) : rel_index (Z.of_nat n) len = Nat.min n len.
Proof. unfold rel_index. destruct (Z.ltb_spec (Z.of_nat n) 0); lia. Qed.

Lemma rel_index_0 (len : nat) : rel_index 0 len = 0%nat.
Proof. apply (rel_index_of_nat 0). Qed.

Lemma subarray_prefix b (n : nat) : subarray b 0 (Z.of_nat n) = take n b.
Proof.
  unfold subarray. rewrite rel_index_0, rel_index_of_nat, drop_0, Nat.sub_0_r.
  destruct (Nat.min_spec n (length b)) as [[? ->]|[? ->]]; [done|].
  by rewrite !take_ge by lia.
Qed.

Lemma subarray_length_le b (i j : Z) :
  0 <= j -> (Z.of_nat (length (subarray b i j)) <= j).
Proof.
  intros Hj. unfold subarray. rewrite length_take.
  assert (rel_index j (length b) <= Z.to_nat j)%nat.
  { unfold rel_index. destruct (Z.ltb_spec j 0); lia. }
  lia.
Qed.

Lemma occupied_take buf : occupied buf = take (buf_length buf) (buf_data buf).
Proof. apply subarray_prefix. Qed.

Lemma occupied_length buf :
  buf_wf buf -> length (occupied buf) = buf_length buf.
Proof. unfold buf_wf. intros. rewrite occupied_take, length_take. lia. Qed.

Lemma length_copy src target i j k : length (copy src target i j k) = length target.
Proof. apply length_inserts. Qed.

Lemma length_copyWithin b t s e : length (copyWithin b t s e) = length b.
Proof. apply length_inserts. Qed.

(** Writing [k] at [i] inside [l] leaves the [i] bytes before it alone. *)
Lemma take_inserts_app (k l1 m l3 : Buffer) :
  length m = length k ->
  take (length l1 + length k) (list_inserts (length l1) k (l1 ++ m ++ l3))
  = l1 ++ k.
Proof.
  intros Hm.
  rewrite <-(Nat.add_0_r (length l1)) at 2.
  rewrite list_inserts_app_r, list_inserts_0_r by done.
  rewrite take_app_add', take_app_length' by done. done.
Qed.

Lemma take_inserts_prefix (k l : Buffer) (i : nat) :
  (i + length k <= length l)%nat ->
  take (i + length k) (list_inserts i k l) = take i l ++ k.
Proof.
  intros Hl.
  assert (Hi : length (take i l) = i) by (rewrite length_take; lia).
  rewrite <-(take_drop i l) at 1.
  rewrite <-(take_drop (length k) (drop i l)).
  rewrite <-Hi at 1 2.
  apply take_inserts_app.
  rewrite length_take, length_drop. lia.
Qed.

Lemma take_inserts_0 (k l : Buffer) :
  (length k <= length l)%nat -> take (length k) (list_inserts 0 k l) = k.
Proof.
  intros Hl. pose proof (take_inserts_prefix k l 0) as E.
  rewrite take_0 in E. by apply E.
Qed.

Lemma growLoop_ge (fuel cap newLen : nat) :
  (0 < cap)%nat -> (newLen <= fuel + cap)%nat ->
  (newLen <= growLoop fuel cap newLen)%nat.
Proof.
  revert cap. induction fuel as [|fuel IH]; intros cap Hpos Hfuel; simpl.
  - lia.
  - destruct (Nat.ltb_spec cap newLen); [apply IH|]; lia.
Qed.

Lemma growLoop_enough (f1 f2 cap newLen : nat) :
  (0 < cap)%nat -> (newLen <= f1 + cap)%nat -> (newLen <= f2 + cap)%nat ->
  growLoop f1 cap newLen = growLoop f2 cap newLen.
Proof.
  revert f2 cap. induction f1 as [|f1 IH]; intros f2 cap Hpos H1 H2.
  - destruct f2; simpl; [done|].
    destruct (Nat.ltb_spec cap newLen); [lia|done].
  - destruct f2; simpl.
    + destruct (Nat.ltb_spec cap newLen); [lia|done].
    + destruct (Nat.ltb_spec cap newLen); [apply IH; lia|done].
Qed.

(** The loop equation of [while (cap < newLen) cap *= 2]. *)
Lemma growCap_unfold (cap newLen : nat) :
  (0 < cap)%nat ->
  growCap cap newLen =
    if (cap <? newLen)%nat then growCap (cap * 2) newLen else cap.
Proof.
  intros Hpos. unfold growCap. destruct newLen as [|n]; [done|].
  simpl growLoop at 1.
  destruct (Nat.ltb_spec cap (S n)); [|done].
  apply growLoop_enough; lia.
Qed.

Lemma growCap_ge (cap newLen : nat) :
  (0 < cap)%nat -> (newLen <= growCap cap newLen)%nat.
Proof. intros. apply growLoop_ge; lia. Qed.

Lemma bufPush_length buf d :
  buf_length (bufPush buf d) = (buf_length buf + length d)%nat.
Proof. done. Qed.

Lemma bufPush_wf buf d : buf_wf (bufPush buf d).
Proof.
  unfold buf_wf, bufPush. cbn [buf_data buf_length].
  rewrite length_copy.
  destruct (Nat.ltb_spec (length (buf_data buf)) (buf_length buf + length d)).
  - rewrite length_copy. unfold alloc. rewrite length_replicate.
    apply growCap_ge. lia.
  - done.
Qed.

Lemma bufPush_occupied buf d :
  buf_wf buf -> occupied (bufPush buf d) = occupied buf ++ d.
Proof.
  unfold buf_wf. intros Hwf. rewrite !occupied_take.
  destruct buf as [s n]. unfold bufPush. cbn [buf_data buf_length] in *.
  unfold copy. rewrite drop_0, !Nat.sub_0_r, (take_ge d) by lia.
  destruct (Nat.ltb_spec (length s) (n + length d)) as [Hgrow|Hfit].
  - set (cap := growCap _ _).
    assert (n + length d <= cap)%nat by (apply growCap_ge; lia).
    clearbody cap.
    rewrite take_inserts_prefix
      by (rewrite length_inserts; unfold alloc; rewrite length_replicate; lia).
    f_equal.
    assert (Hn : length (take n s) = n) by (rewrite length_take; lia).
    pose proof (take_inserts_0 (take n s) (alloc cap)) as E.
    rewrite Hn in E. apply E.
    unfold alloc. rewrite length_replicate. lia.
  - by rewrite take_inserts_prefix.
Qed.

Lemma bufPop_wf buf (n : nat) :
  buf_wf buf -> buf_wf (bufPop buf (Z.of_nat n)).
Proof.
  unfold buf_wf, bufPop. cbn [buf_data buf_length].
  rewrite length_copyWithin. lia.
Qed.

Lemma bufPop_length buf (n : nat) :
  buf_length (bufPop buf (Z.of_nat n)) = (buf_length buf - n)%nat.
Proof. unfold bufPop. cbn [buf_length]. lia. Qed.

Lemma bufPop_occupied buf (n : nat) :
  buf_wf buf -> (n <= buf_length buf)%nat ->
  occupied (bufPop buf (Z.of_nat n)) = drop n (occupied buf).
Proof.
  unfold buf_wf. intros Hwf Hn. rewrite !occupied_take.
  destruct buf as [s len]. unfold bufPop, copyWithin.
  cbn [buf_data buf_length] in *.
  rewrite rel_index_0, !rel_index_of_nat.
  replace (Z.to_nat (Z.of_nat len - Z.of_nat n)) with (len - n)%nat by lia.
  replace (Nat.min (Nat.min len (length s) - Nat.min n (length s))
                   (length s - 0)) with (len - n)%nat by lia.
  replace (Nat.min n (length s)) with n by lia.
  assert (Hk : length (take (len - n) (drop n s)) = (len - n)%nat)
    by (rewrite length_take, length_drop; lia).
  pose proof (take_inserts_0 (take (len - n) (drop n s)) s) as E.
  rewrite Hk in E. rewrite E by lia.
  rewrite take_drop_commute. f_equal. f_equal. lia.
Qed.

End BufferPrimitives.

(* ------------------------------------------------------------------ *)
(** * Append and consume *)

Lemma opsValid_contents (l : Buffer) (ops : list BufOp) (b : DynBuf) :
  buf_wf b -> occupied b = l -> opsValid l ops ->
  buf_wf (runOps ops b) /\ occupied (runOps ops b) = foldl contentsOp l ops.
Proof.
  revert l b. induction ops as [|op ops IH]; intros l b Hwf Hocc Hval.
  - done.
  - destruct Hval as [Hop Hval]. cbn [runOps foldl].
    apply IH; [| |done]; destruct op as [d|n]; cbn [applyOp contentsOp].
    + apply bufPush_wf.
    + by apply bufPop_wf.
    + rewrite bufPush_occupied by done. by rewrite Hocc.
    + rewrite bufPop_occupied; [by rewrite Hocc|done|].
      rewrite <-Hocc, occupied_length in Hop; done.
Qed.

(** C8.  Starting from the empty buffer, after any sequence of appends and
    consumes in which each consume takes at most the occupied length, the
    occupied length is at most the capacity of the storage and the occupied
    prefix [0, length) holds exactly the appended bytes less the consumed
    ones, in order. *)
Theorem append_consume_invariant (ops : list BufOp) :
  opsValid [] ops ->
  (buf_length (runOps ops emptyBuf) <= length (buf_data (runOps ops emptyBuf)))%nat
  /\ take (buf_length (runOps ops emptyBuf)) (buf_data (runOps ops emptyBuf))
     = contents ops.
Proof.
  intros Hval.
  destruct (opsValid_contents [] ops emptyBuf) as [Hwf Hocc]; try done.
  { unfold buf_wf. simpl. lia. }
  split; [exact Hwf|]. by rewrite <-occupied_take.
Qed.

Lemma append_consume_invariant_witness :
  let ops := [OpAppend (fromLatin1 "hello world"); OpConsume 6;
              OpAppend (fromLatin1 "!"); OpConsume 0] in
  opsValid [] ops
  /\ (buf_length (runOps ops emptyBuf) <= length (buf_data (runOps ops emptyBuf)))%nat
  /\ take (buf_length (runOps ops emptyBuf)) (buf_data (runOps ops emptyBuf))
     = fromLatin1 "world!".
Proof.
  intros ops.
  assert (Hval : opsValid [] ops) by (vm_compute; repeat split; lia).
  split; [exact Hval|].
  destruct (append_consume_invariant ops Hval) as [H1 H2].
  split; [exact H1|]. rewrite H2. reflexivity.
Defined.

(* ------------------------------------------------------------------ *)
(** * Searching for the header terminator *)

Section Search.
Implicit Types (pat l a b : Buffer).

Lemma is_prefix_spec pat l : is_prefix pat l = true <-> pat `prefix_of` l.
Proof.
  revert l. induction pat as [|p pat IH]; intros l; simpl.
  - split; [intros _; apply prefix_nil|done].
  - destruct l as [|c l].
    + split; [done|]. intros [k Hk]. discriminate.
    + case_decide as Hpc.
      * subst. rewrite IH. split; [apply prefix_cons|apply prefix_cons_inv_2].
      * split; [done|]. intros H. by apply prefix_cons_inv_1 in H.
Qed.

Lemma find_from_shift pat l i :
  find_from pat l i = (fun j => (i + j)%nat) <$> find_from pat l 0.
Proof.
  revert i. induction l as [|c l IH]; intros i; simpl.
  - destruct (is_prefix pat []); simpl; f_equal; lia.
  - destruct (is_prefix pat (c :: l)); simpl; [f_equal; lia|].
    rewrite (IH (S i)), (IH 1%nat).
    destruct (find_from pat l 0); simpl; f_equal; lia.
Qed.

Lemma find_from_Some pat l i :
  find_from pat l 0 = Some i ->
  pat `prefix_of` drop i l /\ (i + length pat <= length l)%nat
  /\ forall j, (j < i)%nat -> ~ pat `prefix_of` drop j l.
Proof.
  revert i. induction l as [|c l IH]; intros i; simpl.
  - destruct (is_prefix pat []) eqn:E; [|done].
    intros [= <-]. apply is_prefix_spec in E.
    split; [done|]. split; [|lia].
    apply prefix_length in E. simpl in *. lia.
  - destruct (is_prefix pat (c :: l)) eqn:E.
    + intros [= <-]. apply is_prefix_spec in E.
      split; [done|]. split; [|lia]. apply prefix_length in E. simpl in *. lia.
    + rewrite find_from_shift.
      destruct (find_from pat l 0) as [k|] eqn:Ek; [|done].
      intros [= <-]. destruct (IH k eq_refl) as (H1 & H2 & H3).
      split; [done|]. split; [simpl; lia|].
      intros [|j] Hj; simpl.
      * rewrite <-is_prefix_spec. by rewrite E.
      * apply H3. lia.
Qed.

Lemma find_from_None pat l :
  find_from pat l 0 = None -> forall j, ~ pat `prefix_of` drop j l.
Proof.
  induction l as [|c l IH]; simpl.
  - destruct (is_prefix pat []) eqn:E; [done|]. intros _ j.
    rewrite drop_nil, <-is_prefix_spec. by rewrite E.
  - destruct (is_prefix pat (c :: l)) eqn:E; [done|].
    rewrite find_from_shift.
    destruct (find_from pat l 0) eqn:Ek; [done|]. intros _ [|j]; simpl.
    + rewrite <-is_prefix_spec. by rewrite E.
    + by apply IH.
Qed.

(** The first occurrence is determined by these three facts. *)
Lemma find_from_intro pat l i :
  pat `prefix_of` drop i l -> (i <= length l)%nat ->
  (forall j, (j < i)%nat -> ~ pat `prefix_of` drop j l) ->
  find_from pat l 0 = Some i.
Proof.
  intros Hp Hi Hmin.
  destruct (find_from pat l 0) as [k|] eqn:Ek.
  - destruct (find_from_Some _ _ _ Ek) as (Hk1 & Hk2 & Hk3).
    f_equal. destruct (Nat.lt_trichotomy k i) as [Hlt|[->|Hgt]]; [|done|].
    + by destruct (Hmin k Hlt).
    + by destruct (Hk3 i Hgt).
  - by destruct (find_from_None _ _ Ek i).
Qed.

Lemma contains_prefix_drop l pat :
  contains l pat <-> exists j, pat `prefix_of` drop j l.
Proof.
  split.
  - intros (pre & post & ->). exists (length pre).
    rewrite drop_app_length. by exists post.
  - intros (j & post & Hj). exists (take j l), post.
    by rewrite <-Hj, take_drop.
Qed.

Lemma indexOf_neg l pat : indexOf l pat < 0 <-> ~ contains l pat.
Proof.
  unfold indexOf. rewrite contains_prefix_drop.
  destruct (find_from pat l 0) as [i|] eqn:E.
  - split; [lia|]. intros H. destruct H. exists i.
    by destruct (find_from_Some _ _ _ E).
  - split; [|lia]. intros _ [j Hj]. by destruct (find_from_None _ _ E j).
Qed.

(** Prefixes of [drop j] of a prefix. *)
Lemma prefix_drop_app_l pat a b j :
  pat `prefix_of` drop j a -> pat `prefix_of` drop j (a ++ b).
Proof.
  intros [k Hk]. destruct (decide (j <= length a)%nat).
  - rewrite drop_app_le by done. rewrite Hk. exists (k ++ b). by rewrite <-app_assoc.
  - rewrite drop_ge in Hk by lia.
    symmetry in Hk. apply app_eq_nil in Hk as [-> _]. apply prefix_nil.
Qed.

Lemma prefix_drop_app_inv pat a b j :
  pat `prefix_of` drop j (a ++ b) -> (j + length pat <= length a)%nat ->
  pat `prefix_of` drop j a.
Proof.
  intros [k Hk] Hlen. rewrite drop_app_le in Hk by lia.
  assert (E : take (length pat) (drop j a ++ b) = pat)
    by (rewrite Hk; apply take_app_length).
  rewrite take_app_le in E by (rewrite length_drop; lia).
  rewrite <-E. apply prefix_take.
Qed.

(** Searching a prefix [a] of [a ++ b]: the first occurrence in [a ++ b] is
    found in [a] as soon as [a] reaches its end, and nothing is found
    before. *)
Lemma find_from_app pat a b i :
  find_from pat (a ++ b) 0 = Some i ->
  find_from pat a 0 =
    if decide (i + length pat <= length a)%nat then Some i else None.
Proof.
  intros E. destruct (find_from_Some _ _ _ E) as (H1 & H2 & H3).
  case_decide as Hlen.
  - apply find_from_intro; [by eapply prefix_drop_app_inv|lia|].
    intros j Hj Hp. apply (H3 j Hj). by apply prefix_drop_app_l.
  - destruct (find_from pat a 0) as [k|] eqn:Ek; [|done].
    destruct (find_from_Some _ _ _ Ek) as (K1 & K2 & K3).
    destruct (decide (k < i)%nat) as [Hlt|Hge].
    + destruct (H3 k Hlt). by apply prefix_drop_app_l.
    + lia.
Qed.

Lemma find_from_app_None pat a b :
  find_from pat (a ++ b) 0 = None -> find_from pat a 0 = None.
Proof.
  intros E. destruct (find_from pat a 0) as [k|] eqn:Ek; [|done].
  destruct (find_from_Some _ _ _ Ek) as (K1 & _).
  destruct (find_from_None _ _ E k). by apply prefix_drop_app_l.
Qed.

End Search.

(* ------------------------------------------------------------------ *)
(** * The framer *)

Lemma collectHeaders_error lines e :
  collectHeaders lines = Throw e -> e = HTTPError 400 "Invalid header field".
Proof.
  induction lines as [|h rest IH]; simpl; [done|].
  destruct (length h =? 0)%nat; [done|].
  destruct (negb (validateHeader h)); [congruence|].
  destruct (collectHeaders rest); [done|]. intros [= <-]. by apply IH.
Qed.

Lemma parseRequestLine_error line e :
  parseRequestLine line = Throw e -> exists m, e = HTTPError 400 m.
Proof.
  unfold parseRequestLine.
  repeat (case_match; try done); intros [= <-]; eauto.
Qed.

Lemma parseHTTPReq_error data e :
  parseHTTPReq data = Throw e -> exists m, e = HTTPError 400 m.
Proof.
  unfold parseHTTPReq. destruct (splitLines data !! 0%nat) as [rl|].
  - destruct (parseRequestLine rl) as [[[m u] v]|e'] eqn:E.
    + destruct (collectHeaders _) eqn:E'; [done|].
      intros [= <-]. apply collectHeaders_error in E'. eauto.
    + intros [= <-]. by eapply parseRequestLine_error.
  - intros [= <-]. eauto.
Qed.

Lemma cutMessage_null buf b' :
  cutMessage buf = Ok (None, b') -> b' = buf.
Proof.
  unfold cutMessage. destruct (_ <? 0).
  - destruct (_ <=? _)%nat; congruence.
  - destruct (parseHTTPReq _); congruence.
Qed.

(** The framer never consumes more than the occupied length, so the
    length that [bufPop] leaves is exact. *)
Lemma cutMessage_pop_in_range buf :
  0 <= indexOf (occupied buf) terminator ->
  indexOf (occupied buf) terminator + 4 <= Z.of_nat (buf_length buf).
Proof.
  unfold indexOf.
  destruct (find_from terminator (occupied buf) 0) as [i|] eqn:E; [|lia].
  intros _. destruct (find_from_Some _ _ _ E) as (_ & Hlen & _).
  change (length terminator) with 4%nat in Hlen.
  rewrite occupied_take, length_take in Hlen. lia.
Qed.

(** C2.  The framer answers [null] exactly when the occupied bytes hold no
    CRLFCRLF and the occupied length is below 8192, and it fails with the
    HTTP error 413 exactly when they hold none and the length has reached
    8192. *)
Theorem cutMessage_incomplete_or_too_large (buf : DynBuf) :
  Z.of_nat kMaxHeaderLen = 8192
  /\ (cutMessage buf = Ok (None, buf) <->
        ~ contains (occupied buf) terminator
        /\ (buf_length buf < kMaxHeaderLen)%nat)
  /\ ((exists b', cutMessage buf = Ok (None, b')) <->
        cutMessage buf = Ok (None, buf))
  /\ (cutMessage buf = Throw (HTTPError 413 "Header too large") <->
        ~ contains (occupied buf) terminator
        /\ (kMaxHeaderLen <= buf_length buf)%nat).
Proof.
  split; [reflexivity|].
  assert (Hnull : (exists b', cutMessage buf = Ok (None, b')) <->
                  cutMessage buf = Ok (None, buf)).
  { split; [|eauto]. intros [b' Hb]. by rewrite (cutMessage_null _ _ Hb) in Hb. }
  split; [|split; [exact Hnull|]].
  - unfold cutMessage. fold terminator.
    rewrite <-indexOf_neg.
    destruct (Z.ltb_spec (indexOf (occupied buf) terminator) 0) as [Hi|Hi].
    + destruct (Nat.leb_spec kMaxHeaderLen (buf_length buf)).
      * split; [done|]. lia.
      * split; [|done]. intros _. split; [done|lia].
    + split; [|lia]. destruct (parseHTTPReq _); done.
  - unfold cutMessage. fold terminator.
    rewrite <-indexOf_neg.
    destruct (Z.ltb_spec (indexOf (occupied buf) terminator) 0) as [Hi|Hi].
    + destruct (Nat.leb_spec kMaxHeaderLen (buf_length buf)).
      * split; [|done]. intros _. split; [done|lia].
      * split; [done|]. lia.
    + split; [|lia]. destruct (parseHTTPReq _) eqn:E; [done|].
      intros [= ->]. apply parseHTTPReq_error in E as [m [=]].
Qed.

Lemma cutMessage_frame buf :
  buf_wf buf ->
  match cutMessage buf with
  | Throw e => Throw e
  | Ok (m, _) => Ok m
  end = frame (occupied buf).
Proof.
  intros Hwf. unfold cutMessage, frame. fold terminator.
  rewrite occupied_length by done.
  destruct (Z.ltb_spec (indexOf (occupied buf) terminator) 0) as [Hi|Hi].
  - by destruct (_ <=? _)%nat.
  - unfold indexOf in *.
    destruct (find_from terminator (occupied buf) 0) as [i|] eqn:E; [|lia].
    destruct (find_from_Some _ _ _ E) as (_ & Hlen & _).
    rewrite occupied_length in Hlen by done.
    replace (Z.of_nat i + 4) with (Z.of_nat (i + 4)) by lia.
    rewrite subarray_prefix, Nat2Z.id, occupied_take.
    rewrite take_take. change (length terminator) with 4%nat in Hlen.
    replace (Nat.min (i + 4) (buf_length buf)) with (i + 4)%nat by lia.
    by destruct (parseHTTPReq _).
Qed.

Lemma feedWhole_frame buf bytes :
  buf_wf buf -> feedWhole buf bytes = frame (occupied buf ++ bytes).
Proof.
  intros Hwf. unfold feedWhole.
  rewrite <-bufPush_occupied by done.
  rewrite <-cutMessage_frame by apply bufPush_wf.
  by destruct (cutMessage _) as [[m b']|e].
Qed.

(** On a prefix of the input the framer either already gives the final
    answer or reports an incomplete block, as long as the terminator ends
    within the limit. *)
Lemma frame_prefix (a rest : Buffer) :
  indexOf (a ++ rest) terminator + 4 <= Z.of_nat kMaxHeaderLen ->
  frame a = frame (a ++ rest) \/ frame a = Ok None.
Proof.
  unfold frame, indexOf. intros Hlim.
  destruct (find_from terminator (a ++ rest) 0) as [i|] eqn:E.
  - rewrite (find_from_app _ _ _ _ E).
    change (length terminator) with 4%nat. case_decide as Hlen.
    + left. destruct (Z.ltb_spec (Z.of_nat i) 0); [lia|].
      replace (Z.to_nat (Z.of_nat i + 4)) with (i + 4)%nat by lia.
      rewrite take_app_le by lia. reflexivity.
    + right. destruct (Z.ltb_spec (-1) 0); [|lia].
      destruct (Nat.leb_spec kMaxHeaderLen (length a)); [lia|done].
  - rewrite (find_from_app_None _ _ _ E).
    destruct (Z.ltb_spec (-1) 0); [|lia].
    destruct (Nat.leb_spec kMaxHeaderLen (length a)).
    + left. rewrite length_app.
      destruct (Nat.leb_spec kMaxHeaderLen (length a + length rest)); [done|lia].
    + by right.
Qed.

Lemma feedChunks_frame (chunks : list Buffer) (buf : DynBuf) :
  buf_wf buf ->
  indexOf (occupied buf ++ concat chunks) terminator + 4
    <= Z.of_nat kMaxHeaderLen ->
  feedChunks buf chunks = frame (occupied buf ++ concat chunks).
Proof.
  revert buf. induction chunks as [|c rest IH]; intros buf Hwf Hlim.
  - simpl. rewrite app_nil_r. rewrite <-cutMessage_frame by done.
    destruct (cutMessage buf) as [[[m|] b']|e]; done.
  - cbn [feedChunks concat].
    pose proof (cutMessage_frame buf Hwf) as Hf.
    destruct (frame_prefix (occupied buf) (c ++ concat rest) Hlim) as [Heq|Hnone].
    + rewrite Heq in Hf.
      destruct (cutMessage buf) as [[[m|] b']|e] eqn:Ec; [done| |done].
      apply cutMessage_null in Ec as Eb. subst b'.
      rewrite IH; [|apply bufPush_wf|];
        rewrite bufPush_occupied by done; rewrite <-app_assoc; done.
    + rewrite Hnone in Hf.
      destruct (cutMessage buf) as [[[m|] b']|e] eqn:Ec; [done| |done].
      apply cutMessage_null in Ec as Eb. subst b'.
      rewrite IH; [|apply bufPush_wf|];
        rewrite bufPush_occupied by done; rewrite <-app_assoc; done.
Qed.

(** C1, as amended.  When the header terminator, if there is one, ends
    within the first 8192 bytes, feeding the chunks one at a time and
    calling the framer after each gives the same answer (the same parsed
    request, or the same error) as appending all the bytes at once and
    calling the framer once. *)
Theorem chunk_boundary_independence (chunks : list Buffer) :
  indexOf (concat chunks) terminator + 4 <= 8192 ->
  feedChunks emptyBuf chunks = feedWhole emptyBuf (concat chunks).
Proof.
  intros Hlim.
  assert (Hwf : buf_wf emptyBuf) by (unfold buf_wf; simpl; lia).
  rewrite feedWhole_frame by done.
  apply feedChunks_frame; [done|]. exact Hlim.
Qed.

Lemma chunk_boundary_independence_witness :
  let chunks :=
    [fromLatin1 "GET /x HT"; fromLatin1 ("TP/1.1" +:+ CRLF +:+ "Host: a");
     fromLatin1 (CRLF +:+ CRLF +:+ "rest")] in
  indexOf (concat chunks) terminator + 4 <= 8192
  /\ feedChunks emptyBuf chunks = feedWhole emptyBuf (concat chunks)
  /\ feedWhole emptyBuf (concat chunks)
     = Ok (Some (mkHTTPReq "GET" (fromLatin1 "/x") "1.1" [fromLatin1 "Host: a"])).
Proof.
  intros chunks.
  assert (Hlim : indexOf (concat chunks) terminator + 4 <= 8192)
    by (vm_compute; discriminate).
  split; [exact Hlim|]. split; [exact (chunk_boundary_independence chunks Hlim)|].
  vm_compute. reflexivity.
Defined.

(** C1 as stated fails: a header block of more than 8192 bytes is parsed
    when it is appended whole, and rejected with 413 when its first 8192
    bytes are appended first. *)
Lemma chunk_boundary_counterexample :
  concat longRequestChunks = longRequest
  /\ contains longRequest terminator
  /\ Forall (fun c => c <> []) longRequestChunks
  /\ feedChunks emptyBuf longRequestChunks
     = Throw (HTTPError 413 "Header too large")
  /\ feedWhole emptyBuf (concat longRequestChunks)
     = Ok (Some (mkHTTPReq "GET" (fromLatin1 "/") "1.1"
                   [fromLatin1 "X: " ++ replicate (8 * 1024) "a"%byte]))
  /\ feedChunks emptyBuf longRequestChunks
     <> feedWhole emptyBuf (concat longRequestChunks).
Proof.
  assert (E1 : concat longRequestChunks = longRequest).
  { unfold longRequestChunks. cbn [concat]. rewrite app_nil_r. apply take_drop. }
  assert (E2 : feedChunks emptyBuf longRequestChunks
               = Throw (HTTPError 413 "Header too large"))
    by (vm_compute; reflexivity).
  assert (E3 : feedWhole emptyBuf (concat longRequestChunks)
     = Ok (Some (mkHTTPReq "GET" (fromLatin1 "/") "1.1"
                   [fromLatin1 "X: " ++ replicate (8 * 1024) "a"%byte])))
    by (vm_compute; reflexivity).
  assert (L1 : length (take (8 * 1024) longRequest) = (8 * 1024)%nat)
    by (vm_compute; reflexivity).
  assert (L2 : length (drop (8 * 1024) longRequest) = 23%nat)
    by (vm_compute; reflexivity).
  split; [exact E1|]. split.
  { exists (fromLatin1 ("GET / HTTP/1.1" +:+ CRLF +:+ "X: ")
            ++ replicate (8 * 1024) "a"%byte), [].
    rewrite (app_nil_r terminator), <-app_assoc. reflexivity. }
  split.
  { unfold longRequestChunks.
    apply Forall_cons; split; [|apply Forall_cons; split; [|apply Forall_nil_2]].
    - intros H. rewrite H in L1. discriminate L1.
    - intros H. rewrite H in L2. discriminate L2. }
  split; [exact E2|]. split; [exact E3|].
  rewrite E2, E3. discriminate.
Qed.

(* ------------------------------------------------------------------ *)
(** * The request line *)

Lemma toLatin1_fromLatin1 (s : string) : toLatin1 (fromLatin1 s) = s.
Proof. apply String.string_of_list_byte_of_string. Qed.

Lemma fromLatin1_toLatin1 (b : Buffer) : fromLatin1 (toLatin1 b) = b.
Proof. apply String.list_byte_of_string_of_list_byte. Qed.

Lemma append_cons (a : ascii) (s t : string) :
  String a s +:+ t = String a (s +:+ t).
Proof. reflexivity. Qed.

Lemma string_prefix_spec (p s : string) :
  String.prefix p s = true <-> exists t, s = p +:+ t.
Proof.
  revert s. induction p as [|a p IH]; intros s.
  - destruct s; simpl; split; eauto.
  - destruct s as [|b s]; simpl.
    + split; [done|]. intros [t Ht]. discriminate.
    + destruct (ascii_dec a b) as [->|Hne].
      * rewrite IH. split; intros [t Ht]; exists t;
          rewrite append_cons in *; congruence.
      * split; [done|]. intros [t Ht]. rewrite append_cons in Ht. congruence.
Qed.

Lemma split_on_char_nonempty c s : split_on_char c s <> [].
Proof.
  destruct s as [|a s]; simpl; [done|].
  destruct (Ascii.eqb a c); [done|]. by destruct (split_on_char c s).
Qed.

Lemma split_on_crlf_nonempty s : split_on_crlf s <> [].
Proof.
  destruct s as [|a [|b s]]; [done..|].
  change (split_on_crlf (String a (String b s))) with
    (if Ascii.eqb a CR && Ascii.eqb b LF then EmptyString :: split_on_crlf s
     else match split_on_crlf (String b s) with
          | [] => [String a EmptyString]
          | t :: ts => String a t :: ts
          end).
  destruct (Ascii.eqb a CR && Ascii.eqb b LF); [done|].
  by destruct (split_on_crlf (String b s)).
Qed.

Lemma splitLines_first (data : Buffer) :
  exists rl, splitLines data !! 0%nat = Some rl.
Proof.
  unfold splitLines. pose proof (split_on_crlf_nonempty (toLatin1 data)).
  destruct (split_on_crlf (toLatin1 data)) as [|l ls]; [done|].
  simpl. eauto.
Qed.

(** What [parseRequestLine] does, by the shape of the token list. *)
Lemma parseRequestLine_tokens (line : Buffer) :
  match split_on_char " " (toLatin1 line) with
  | [m; u; p] =>
      (exists suffix, p = "HTTP/" +:+ suffix /\ suffix <> EmptyString
         /\ ((exists v, parseRequestLine line = Ok (m, fromLatin1 u, v))
             \/ parseRequestLine line = Throw (HTTPError 400 "Bad version")))
      \/ ((String.prefix "HTTP/" p = false \/ p = "HTTP/")
          /\ parseRequestLine line = Throw (HTTPError 400 "Bad version"))
  | _ => parseRequestLine line = Throw (HTTPError 400 "Bad request line")
  end.
Proof.
  unfold parseRequestLine.
  destruct (split_on_char " " (toLatin1 line)) as [|m [|u [|p [|x ts]]]];
    try done.
  destruct (String.prefix "HTTP/" p) eqn:Hp; simpl; [|right; eauto].
  apply string_prefix_spec in Hp as [suffix ->].
  destruct suffix as [|a suffix]; [right; eauto|].
  left. exists (String a suffix). split; [done|]. split; [done|].
  destruct (take 2 _ !! 1%nat) as [[|c v]|]; eauto.
Qed.

Lemma parseHTTPReq_request_line (data rl : Buffer) :
  splitLines data !! 0%nat = Some rl ->
  match parseRequestLine rl with
  | Throw e => parseHTTPReq data = Throw e
  | Ok (m, u, v) =>
      forall req, parseHTTPReq data = Ok req ->
                  method req = m /\ uri req = u /\ version req = v
  end.
Proof.
  intros Hrl. unfold parseHTTPReq. rewrite Hrl.
  destruct (parseRequestLine rl) as [[[m u] v]|e]; [|done].
  destruct (collectHeaders _); [|done]. by intros req [= <-].
Qed.

(** C3.  The request line is the first line of the header block.  Parsing
    succeeds only if it splits on spaces into exactly three tokens of which
    the third is HTTP/ followed by a non-empty rest; with another number of
    tokens, or a third token without that prefix or with nothing after it,
    the parser throws an HTTP error with status 400. *)
Theorem request_line_three_tokens (data : Buffer) :
  exists rl,
    splitLines data !! 0%nat = Some rl
    /\ (forall req, parseHTTPReq data = Ok req ->
          exists suffix,
            split_on_char " " (toLatin1 rl)
            = [method req; toLatin1 (uri req); "HTTP/" +:+ suffix]
            /\ suffix <> EmptyString)
    /\ (length (split_on_char " " (toLatin1 rl)) <> 3%nat ->
          parseRequestLine rl = Throw (HTTPError 400 "Bad request line")
          /\ parseHTTPReq data = Throw (HTTPError 400 "Bad request line"))
    /\ (forall m u p,
          split_on_char " " (toLatin1 rl) = [m; u; p] ->
          ~ (exists suffix, p = "HTTP/" +:+ suffix /\ suffix <> EmptyString) ->
          parseRequestLine rl = Throw (HTTPError 400 "Bad version")
          /\ parseHTTPReq data = Throw (HTTPError 400 "Bad version")).
Proof.
  destruct (splitLines_first data) as [rl Hrl]. exists rl.
  split; [exact Hrl|].
  pose proof (parseRequestLine_tokens rl) as Htok.
  pose proof (parseHTTPReq_request_line data rl Hrl) as Hreq.
  split; [|split].
  - intros req Hok.
    destruct (split_on_char " " (toLatin1 rl)) as [|m [|u [|p [|x ts]]]];
      try (rewrite Htok in Hreq; congruence).
    destruct Htok as [(suffix & -> & Hne & [[v Hv]|Hbad])|[_ Hbad]];
      try (rewrite Hbad in Hreq; congruence).
    rewrite Hv in Hreq. destruct (Hreq req Hok) as (Hm & Hu & _).
    exists suffix. by rewrite Hm, Hu, toLatin1_fromLatin1.
  - intros Hlen.
    destruct (split_on_char " " (toLatin1 rl)) as [|m [|u [|p [|x ts]]]];
      try done; by rewrite Htok in Hreq.
  - intros m u p Hsplit Hno. rewrite Hsplit in Htok.
    destruct Htok as [(suffix & -> & Hne & _)|[_ Hbad]].
    + destruct Hno. eauto.
    + by rewrite Hbad in Hreq.
Qed.

Lemma request_line_three_tokens_witness :
  parseHTTPReq (fromLatin1 ("GET /index.html" +:+ CRLF +:+ CRLF))
  = Throw (HTTPError 400 "Bad request line")
  /\ parseHTTPReq (fromLatin1 ("GET / FTP/1.1" +:+ CRLF +:+ CRLF))
     = Throw (HTTPError 400 "Bad version")
  /\ parseHTTPReq (fromLatin1 ("GET / HTTP/" +:+ CRLF +:+ CRLF))
     = Throw (HTTPError 400 "Bad version")
  /\ exists suffix,
       split_on_char " " "GET / HTTP/1.1" = ["GET"; "/"; "HTTP/" +:+ suffix]
       /\ suffix <> EmptyString.
Proof.
  split; [|split; [|split]].
  - destruct (request_line_three_tokens
                (fromLatin1 ("GET /index.html" +:+ CRLF +:+ CRLF)))
      as (rl & Hrl & _ & H2 & _).
    injection Hrl as <-. apply H2. vm_compute. lia.
  - destruct (request_line_three_tokens
                (fromLatin1 ("GET / FTP/1.1" +:+ CRLF +:+ CRLF)))
      as (rl & Hrl & _ & _ & H3).
    injection Hrl as <-. apply (H3 "GET" "/" "FTP/1.1"); [reflexivity|].
    intros (suffix & Hs & _). discriminate Hs.
  - destruct (request_line_three_tokens
                (fromLatin1 ("GET / HTTP/" +:+ CRLF +:+ CRLF)))
      as (rl & Hrl & _ & _ & H3).
    injection Hrl as <-. apply (H3 "GET" "/" "HTTP/"); [reflexivity|].
    intros (suffix & Hs & Hne). injection Hs as Hs. by subst.
  - destruct (request_line_three_tokens
                (fromLatin1 ("GET / HTTP/1.1" +:+ CRLF +:+ CRLF)))
      as (rl & Hrl & H1 & _).
    injection Hrl as <-.
    apply (H1 (mkHTTPReq "GET" (fromLatin1 "/") "1.1" [])). reflexivity.
Defined.

(* ------------------------------------------------------------------ *)
(** * Body readers *)

Lemma readerFromReq_content_length (req : HTTPReq) (v : Buffer) (w : World) :
  String.eqb (method req) "GET" = false ->
  String.eqb (method req) "HEAD" = false ->
  fieldGet (headers req) "Content-Length" = Some v ->
  readerFromReq req w =
    match parseInt (toLatin1 v) with
    | None => (Raise (HTTPError 400 "Bad Content-Length"), w)
    | Some n => readerFromConnLength n w
    end.
Proof.
  intros Hget Hhead Hcl. unfold readerFromReq. rewrite Hget, Hhead, Hcl.
  simpl. by destruct (parseInt (toLatin1 v)).
Qed.

(** C4.  The code accepts a Content-Length that is not a non-negative
    integer: for the value -5 it builds a connection reader of declared
    length -5, and for 12abc one of declared length 12, where the claim
    asks for the HTTP error 400.  Only a value without a leading number is
    rejected. *)
Theorem negative_content_length_accepted (w : World) :
  readerFromReq negativeLengthReq w
  = (Done (mkBodyReader (-5) (length (w_cells w))),
     mkWorld (w_conn w) (w_buf w) (w_cells w ++ [ConnCell (-5)]))
  /\ readerFromReq trailingGarbageReq w
     = (Done (mkBodyReader 12 (length (w_cells w))),
        mkWorld (w_conn w) (w_buf w) (w_cells w ++ [ConnCell 12]))
  /\ parseInt "abc" = None /\ parseInt "" = None.
Proof. repeat split. Qed.

Lemma readBody_conn (r : BodyReader) (w : World) (rem : Z) :
  w_cells w !! body_cell r = Some (ConnCell rem) ->
  readBody r w = readConn (body_cell r) rem w.
Proof. intros H. unfold readBody. by rewrite H. Qed.

Lemma readBody_mem (r : BodyReader) (w : World) data done :
  w_cells w !! body_cell r = Some (MemCell data done) ->
  readBody r w = readMem (body_cell r) data done w.
Proof. intros H. unfold readBody. by rewrite H. Qed.

Ltac io_simpl := cbn [w_conn w_buf w_cells fst snd] in *.

Ltac unfold_io :=
  unfold bind, ret, raise, getBuf, setBuf, setCell, newCell, io_soRead,
    io_soWrite, liftResult in *;
  cbn [w_conn w_buf w_cells fst snd] in *.

(** One [read] of a connection reader with [rem] bytes to go: a chunk is
    never longer than [rem], and [rem] goes down by at least its length;
    a failed read leaves [rem] as it was. *)
Lemma readConn_step (a : nat) (rem : Z) (w w' : World) (o : Outcome Buffer) :
  0 <= rem ->
  w_cells w !! a = Some (ConnCell rem) ->
  readConn a rem w = (o, w') ->
  exists rem',
    w_cells w' !! a = Some (ConnCell rem') /\ 0 <= rem'
    /\ match o with
       | Done d => Z.of_nat (length d) + rem' <= rem
       | _ => rem' = rem
       end.
Proof.
  intros Hrem Hcell. unfold readConn.
  assert (Ha : (a < length (w_cells w))%nat) by (by eapply lookup_lt_Some).
  destruct (Z.eqb_spec rem 0) as [->|Hnz].
  { intros [= <- <-]. exists 0. simpl. done. }
  assert (Hfin : forall b : DynBuf,
    let consume := Z.min (Z.of_nat (buf_length b)) rem in
    exists rem',
      <[a:=ConnCell (rem - consume)]> (w_cells w) !! a = Some (ConnCell rem')
      /\ 0 <= rem'
      /\ Z.of_nat (length (subarray (buf_data b) 0 consume)) + rem' <= rem).
  { intros b consume. exists (rem - consume).
    rewrite list_lookup_insert_eq by done. split; [done|].
    pose proof (subarray_length_le (buf_data b) 0 consume). lia. }
  unfold_io.
  destruct (Nat.eqb_spec (buf_length (w_buf w)) 0) as [Hzero|Hnz'].
  - destruct (awaitRead (w_conn w)) as [[d|e| |] c] eqn:Er; io_simpl.
    + destruct (Nat.eqb_spec (length d) 0); io_simpl.
      * intros [= <- <-]. io_simpl. eauto.
      * intros [= <- <-]. io_simpl. apply (Hfin (bufPush (w_buf w) d)).
    + intros [= <- <-]. io_simpl. eauto.
    + intros [= <- <-]. io_simpl. eauto.
    + intros [= <- <-]. io_simpl. eauto.
  - io_simpl. intros [= <- <-]. io_simpl. apply (Hfin (w_buf w)).
Qed.

Lemma readMany_bound (k : nat) (r : BodyReader) (w : World) (rem : Z) :
  0 <= rem ->
  w_cells w !! body_cell r = Some (ConnCell rem) ->
  Z.of_nat (yielded (fst (readMany k r w))) <= rem.
Proof.
  revert w rem. induction k as [|k IH]; intros w rem Hrem Hcell.
  - simpl. lia.
  - cbn [readMany].
    destruct (readBody r w) as [o w1] eqn:Er.
    destruct (readMany k r w1) as [os w2] eqn:Ek.
    rewrite (readBody_conn _ _ _ Hcell) in Er.
    destruct (readConn_step _ _ _ _ _ Hrem Hcell Er) as (rem' & Hc' & Hr' & Ho).
    pose proof (IH w1 rem' Hr' Hc') as Hb. rewrite Ek in Hb.
    cbn [fst] in *. destruct o; cbn [yielded]; lia.
Qed.

(** With bytes in the buffer, [read] hands out the front of the buffer and
    leaves the connection alone. *)
Lemma readConn_buffer_first (a : nat) (rem : Z) (w : World) :
  0 < rem -> buf_length (w_buf w) <> 0%nat ->
  let consume := Z.min (Z.of_nat (buf_length (w_buf w))) rem in
  readConn a rem w
  = (Done (take (Z.to_nat consume) (occupied (w_buf w))),
     mkWorld (w_conn w) (bufPop (w_buf w) consume)
             (<[a:=ConnCell (rem - consume)]> (w_cells w))).
Proof.
  intros Hrem Hlen consume. unfold readConn.
  destruct (Z.eqb_spec rem 0); [lia|]. unfold_io.
  destruct (Nat.eqb_spec (buf_length (w_buf w)) 0); [done|]. io_simpl.
  f_equal. f_equal. fold consume.
  replace consume with (Z.of_nat (Z.to_nat consume)) at 1 by lia.
  rewrite subarray_prefix, occupied_take, take_take.
  f_equal. lia.
Qed.

(** With an empty buffer and bytes still owed, an empty chunk from the
    connection makes [read] throw. *)
Lemma readConn_eof (a : nat) (rem : Z) (w : World) (c : TCPConn) :
  rem <> 0 -> buf_length (w_buf w) = 0%nat ->
  awaitRead (w_conn w) = (Done [], c) ->
  readConn a rem w
  = (Raise (JsError "Unexpected EOF"),
     mkWorld c (bufPush (w_buf w) []) (w_cells w)).
Proof.
  intros Hrem Hlen Hread. unfold readConn.
  destruct (Z.eqb_spec rem 0); [done|]. unfold_io.
  rewrite Hlen. cbn [Nat.eqb]. io_simpl. rewrite Hread. reflexivity.
Qed.

(** With an empty buffer, a non-empty chunk from the connection is appended
    to the buffer, and the read goes on as it does with buffered bytes. *)
Lemma readConn_refill (a : nat) (rem : Z) (w : World) (c : TCPConn)
      (d : Buffer) :
  rem <> 0 -> buf_length (w_buf w) = 0%nat ->
  awaitRead (w_conn w) = (Done d, c) -> d <> [] ->
  readConn a rem w
  = readConn a rem (mkWorld c (bufPush (w_buf w) d) (w_cells w)).
Proof.
  intros Hrem Hlen Hread Hd. unfold readConn.
  destruct (Z.eqb_spec rem 0); [done|]. unfold_io.
  rewrite Hlen. cbn [Nat.eqb]. rewrite Hread. io_simpl.
  destruct (Nat.eqb_spec (length d) 0) as [E|E]; [by destruct d|].
  io_simpl.
  destruct (Nat.eqb_spec (buf_length (bufPush (w_buf w) d)) 0) as [E'|E'];
    [rewrite bufPush_length in E'; lia|].
  reflexivity.
Qed.

(** What one [read] keeps: the buffer stays well formed, a returned chunk
    comes off what is owed byte for byte, the empty chunk is returned only
    when nothing is owed, and a failed read leaves what is owed as it was. *)
Lemma readConn_step_inv (a : nat) (rem : Z) (w w' : World)
      (o : Outcome Buffer) :
  buf_wf (w_buf w) -> 0 <= rem ->
  w_cells w !! a = Some (ConnCell rem) ->
  readConn a rem w = (o, w') ->
  buf_wf (w_buf w')
  /\ exists rem',
       w_cells w' !! a = Some (ConnCell rem') /\ 0 <= rem'
       /\ match o with
          | Done d => Z.of_nat (length d) + rem' = rem /\ (d = [] -> rem = 0)
          | _ => rem' = rem
          end.
Proof.
  intros Hwf Hrem Hcell. unfold readConn.
  assert (Ha : (a < length (w_cells w))%nat) by (by eapply lookup_lt_Some).
  destruct (Z.eqb_spec rem 0) as [->|Hnz].
  { intros [= <- <-]. split; [done|]. exists 0. simpl. done. }
  assert (Hfin : forall b : DynBuf,
    buf_wf b -> buf_length b <> 0%nat ->
    let consume := Z.min (Z.of_nat (buf_length b)) rem in
    let d := subarray (buf_data b) 0 consume in
    buf_wf (bufPop b consume)
    /\ exists rem',
         <[a:=ConnCell (rem - consume)]> (w_cells w) !! a
         = Some (ConnCell rem')
         /\ 0 <= rem'
         /\ Z.of_nat (length d) + rem' = rem /\ (d = [] -> rem = 0)).
  { intros b Hb Hlen consume d0. unfold buf_wf in Hb.
    assert (Hd : Z.of_nat (length d0) = consume).
    { unfold d0. replace consume with (Z.of_nat (Z.to_nat consume)) at 1 by lia.
      rewrite subarray_prefix, length_take. lia. }
    split.
    - replace consume with (Z.of_nat (Z.to_nat consume)) by lia.
      by apply bufPop_wf.
    - exists (rem - consume). rewrite list_lookup_insert_eq by done.
      split; [done|]. split; [lia|]. split; [lia|].
      intros E. rewrite E in Hd. simpl in Hd. lia. }
  unfold_io.
  destruct (Nat.eqb_spec (buf_length (w_buf w)) 0) as [Hzero|Hnz'].
  - destruct (awaitRead (w_conn w)) as [[x|e| |] c] eqn:Er; io_simpl.
    + destruct (Nat.eqb_spec (length x) 0); io_simpl.
      * intros [= <- <-]. io_simpl. split; [apply bufPush_wf|eauto].
      * intros [= <- <-]. io_simpl.
        apply (Hfin (bufPush (w_buf w) x)); [apply bufPush_wf|].
        rewrite bufPush_length. lia.
    + intros [= <- <-]. io_simpl. split; [done|eauto].
    + intros [= <- <-]. io_simpl. split; [done|eauto].
    + intros [= <- <-]. io_simpl. split; [done|eauto].
  - io_simpl. intros [= <- <-]. io_simpl. by apply (Hfin (w_buf w)).
Qed.

(** Over any number of reads, the bytes handed out and the bytes still owed
    add up to what was owed at the start. *)
Lemma readMany_exact (k : nat) (r : BodyReader) (w : World) (rem : Z) :
  buf_wf (w_buf w) -> 0 <= rem ->
  w_cells w !! body_cell r = Some (ConnCell rem) ->
  buf_wf (w_buf (snd (readMany k r w)))
  /\ exists rem',
       w_cells (snd (readMany k r w)) !! body_cell r = Some (ConnCell rem')
       /\ 0 <= rem'
       /\ Z.of_nat (yielded (fst (readMany k r w))) + rem' = rem.
Proof.
  revert w rem. induction k as [|k IH]; intros w rem Hwf Hrem Hcell.
  - simpl. split; [done|]. exists rem. split; [done|]. lia.
  - cbn [readMany].
    destruct (readBody r w) as [o w1] eqn:Er.
    rewrite (readBody_conn _ _ _ Hcell) in Er.
    destruct (readConn_step_inv _ _ _ _ _ Hwf Hrem Hcell Er)
      as (Hwf1 & rem1 & Hc1 & Hr1 & Ho).
    destruct (IH w1 rem1 Hwf1 Hr1 Hc1) as (Hwf2 & rem2 & Hc2 & Hr2 & Hy).
    destruct (readMany k r w1) as [os w2] eqn:Ek.
    cbn [fst snd] in *. split; [done|]. exists rem2.
    split; [done|]. split; [done|].
    destruct o; cbn [yielded]; lia.
Qed.

(** C5.  A reader built over the connection with declared length [n >= 0]
    is made without reading or consuming anything, and:
    - over any number of reads the successful ones never yield more than
      [n] bytes in total; on a well-formed buffer the bytes yielded and the
      bytes the reader still owes always add up to exactly [n];
    - with bytes in the buffer a read issues no read on the connection: it
      returns the first [min (buffered, owed)] buffered bytes, removes
      exactly these from the buffer and takes them off what is owed;
    - with an empty buffer a non-empty chunk [d] read from the connection
      is buffered first: the read returns the first [min (|d|, owed)] bytes
      of [d] and leaves the rest of [d] in the buffer;
    - with an empty buffer and bytes still owed, an empty chunk from the
      connection (the end of the stream) makes the read throw
      "Unexpected EOF", with what is owed unchanged;
    - on a well-formed buffer a read returns the empty chunk only when
      nothing is owed any more, so never as a short body. *)
Theorem conn_reader_bounded (n : Z) (w : World) :
  0 <= n ->
  exists r w0,
    readerFromConnLength n w = (Done r, w0)
    /\ body_length r = n
    /\ w_conn w0 = w_conn w /\ w_buf w0 = w_buf w
    /\ (forall k, Z.of_nat (yielded (fst (readMany k r w0))) <= n)
    /\ (forall k,
          buf_wf (w_buf w) ->
          exists owed,
            w_cells (snd (readMany k r w0)) !! body_cell r
            = Some (ConnCell owed)
            /\ 0 <= owed
            /\ Z.of_nat (yielded (fst (readMany k r w0))) + owed = n)
    /\ (forall w1 rem,
          w_cells w1 !! body_cell r = Some (ConnCell rem) ->
          0 < rem -> buf_length (w_buf w1) <> 0%nat ->
          let consume := Z.min (Z.of_nat (buf_length (w_buf w1))) rem in
          readBody r w1
          = (Done (take (Z.to_nat consume) (occupied (w_buf w1))),
             mkWorld (w_conn w1) (bufPop (w_buf w1) consume)
                     (<[body_cell r:=ConnCell (rem - consume)]> (w_cells w1)))
          /\ (buf_wf (w_buf w1) ->
              occupied (bufPop (w_buf w1) consume)
              = drop (Z.to_nat consume) (occupied (w_buf w1))))
    /\ (forall w1 rem c d,
          w_cells w1 !! body_cell r = Some (ConnCell rem) ->
          0 < rem -> buf_length (w_buf w1) = 0%nat ->
          awaitRead (w_conn w1) = (Done d, c) -> d <> [] ->
          let consume := Z.min (Z.of_nat (length d)) rem in
          exists b,
            readBody r w1
            = (Done (take (Z.to_nat consume) d),
               mkWorld c b
                       (<[body_cell r:=ConnCell (rem - consume)]> (w_cells w1)))
            /\ occupied b = drop (Z.to_nat consume) d)
    /\ (forall w1 rem c,
          w_cells w1 !! body_cell r = Some (ConnCell rem) ->
          0 < rem -> buf_length (w_buf w1) = 0%nat ->
          awaitRead (w_conn w1) = (Done [], c) ->
          readBody r w1
          = (Raise (JsError "Unexpected EOF"),
             mkWorld c (bufPush (w_buf w1) []) (w_cells w1)))
    /\ (forall w1 rem w2,
          w_cells w1 !! body_cell r = Some (ConnCell rem) ->
          0 <= rem -> buf_wf (w_buf w1) ->
          readBody r w1 = (Done [], w2) -> rem = 0).
Proof.
  intros Hn.
  set (r := mkBodyReader n (length (w_cells w))).
  set (w0 := mkWorld (w_conn w) (w_buf w) (w_cells w ++ [ConnCell n])).
  exists r, w0.
  assert (Hnew : w_cells w0 !! body_cell r = Some (ConnCell n))
    by (cbn [w0 r w_cells body_cell]; by rewrite lookup_app_r, Nat.sub_diag).
  split; [reflexivity|]. split; [reflexivity|].
  split; [reflexivity|]. split; [reflexivity|].
  split; [|split; [|split; [|split; [|split]]]].
  - intros k. by apply readMany_bound.
  - intros k Hwf.
    destruct (readMany_exact k r w0 n) as (_ & owed & H1 & H2 & H3);
      [done..|].
    by exists owed.
  - intros w1 rem Hcell Hrem Hlen.
    set (consume := Z.min (Z.of_nat (buf_length (w_buf w1))) rem).
    rewrite (readBody_conn r w1 rem Hcell).
    split; [by apply readConn_buffer_first|].
    intros Hwf.
    replace consume with (Z.of_nat (Z.to_nat consume)) at 1 by lia.
    apply bufPop_occupied; [done|]. lia.
  - intros w1 rem c d Hcell Hrem Hlen Hread Hd.
    set (consume := Z.min (Z.of_nat (length d)) rem).
    rewrite (readBody_conn r w1 rem Hcell).
    assert (Hwf : buf_wf (w_buf w1)) by (unfold buf_wf; lia).
    assert (Hocc : occupied (bufPush (w_buf w1) d) = d).
    { rewrite bufPush_occupied by done.
      by rewrite occupied_take, Hlen, take_0. }
    assert (Hcons : Z.min (Z.of_nat (buf_length (bufPush (w_buf w1) d))) rem
                    = consume)
      by (rewrite bufPush_length, Hlen; reflexivity).
    exists (bufPop (bufPush (w_buf w1) d) consume).
    rewrite (readConn_refill _ _ _ c d) by (done || lia).
    rewrite readConn_buffer_first
      by (cbn [w_buf];
          first [lia | rewrite bufPush_length; destruct d; [done|simpl; lia]]).
    cbn [w_conn w_buf w_cells]. rewrite Hcons, Hocc. split; [done|].
    replace consume with (Z.of_nat (Z.to_nat consume)) at 1 by lia.
    rewrite bufPop_occupied, Hocc; [done|apply bufPush_wf|].
    rewrite bufPush_length. lia.
  - intros w1 rem c Hcell Hrem Hlen Hread.
    rewrite (readBody_conn r w1 rem Hcell).
    apply readConn_eof; [lia|done..].
  - intros w1 rem w2 Hcell Hrem Hwf Hread.
    rewrite (readBody_conn r w1 rem Hcell) in Hread.
    destruct (readConn_step_inv _ _ _ _ _ Hwf Hrem Hcell Hread)
      as (_ & rem' & _ & _ & _ & Hnil).
    by apply Hnil.
Qed.

Lemma conn_reader_bounded_witness :
  0 <= 5
  /\ exists r w0 w1,
       readerFromConnLength 5
         (bufferedWorld (fromLatin1 "hello world") [EvEnd]) = (Done r, w0)
       /\ body_length r = 5
       /\ (forall k, Z.of_nat (yielded (fst (readMany k r w0))) <= 5)
       /\ readBody r w0 = (Done (fromLatin1 "hello"), w1)
       /\ occupied (w_buf w1) = fromLatin1 " world"
       /\ w_conn w1 = w_conn w0
       /\ w_cells w1 !! body_cell r = Some (ConnCell 0).
Proof.
  split; [lia|].
  destruct (conn_reader_bounded 5
              (bufferedWorld (fromLatin1 "hello world") [EvEnd]))
    as (r & w0 & H1 & H2 & _ & _ & H3 & _ & H4 & _); [lia|].
  assert (Hr : r = mkBodyReader 5 0) by (by injection H1).
  assert (Hw : w0 = mkWorld
                      (w_conn (bufferedWorld (fromLatin1 "hello world") [EvEnd]))
                      (w_buf (bufferedWorld (fromLatin1 "hello world") [EvEnd]))
                      [ConnCell 5]) by (by injection H1).
  destruct (H4 w0 5) as [Hread Hocc];
    [by rewrite Hr, Hw|lia|by rewrite Hw|].
  exists r, w0. eexists.
  split; [exact H1|]. split; [exact H2|]. split; [exact H3|].
  split; [rewrite Hread; f_equal; f_equal; by rewrite Hw|].
  cbn [w_buf w_conn w_cells].
  split; [rewrite Hocc by (rewrite Hw; vm_compute; lia); by rewrite Hw|].
  split; [done|]. by rewrite Hr, Hw.
Defined.

(* ------------------------------------------------------------------ *)
(** * The response writer *)

Lemma deliver_socket_out ev c :
  written (socket (snd (deliver ev c))) = written (socket c)
  /\ write_results (socket (snd (deliver ev c))) = write_results (socket c).
Proof.
  destruct ev; simpl; unfold onData, onEnd, onError;
    destruct (reader c); done.
Qed.

Lemma pump_socket_out evs c :
  written (socket (snd (pump evs c))) = written (socket c)
  /\ write_results (socket (snd (pump evs c))) = write_results (socket c).
Proof.
  revert c. induction evs as [|ev evs IH]; intros c; [done|].
  cbn [pump]. pose proof (deliver_socket_out ev c) as Hd.
  destruct (deliver ev c) as [[s|] c']; cbn [snd] in *; [done|].
  destruct (IH c') as [-> ->]. done.
Qed.

Lemma awaitRead_socket_out c :
  written (socket (snd (awaitRead c))) = written (socket c)
  /\ write_results (socket (snd (awaitRead c))) = write_results (socket c).
Proof.
  unfold awaitRead, soRead. destruct (ended c) eqn:He; [done|].
  destruct (err c) eqn:Hr; [done|].
  match goal with
  | |- context [pump ?evs ?c'] => destruct (pump_socket_out evs c') as [-> ->]
  end. done.
Qed.

(** Reading a body writes nothing. *)
Lemma readBody_socket_out r w :
  wire (snd (readBody r w)) = wire w
  /\ write_results (socket (w_conn (snd (readBody r w))))
     = write_results (socket (w_conn w)).
Proof.
  unfold readBody, wire.
  destruct (w_cells w !! body_cell r) as [[data [|]|rem]|]; try done.
  unfold readConn. destruct (rem =? 0); [done|]. unfold_io.
  destruct (buf_length (w_buf w) =? 0)%nat; [|done]. io_simpl.
  pose proof (awaitRead_socket_out (w_conn w)) as Hs.
  destruct (awaitRead (w_conn w)) as [[d| e | |] c]; try done.
  io_simpl. by destruct (length d =? 0)%nat.
Qed.

Lemma io_soWrite_wire d w :
  match io_soWrite d w with
  | (Done _, w') => wire w' = wire w ++ [d] /\ nextWriteOk w
  | (_, w') => wire w' = wire w /\ ~ nextWriteOk w
  end.
Proof.
  unfold io_soWrite, soWrite, wire, nextWriteOk.
  destruct (write_results (socket (w_conn w))) as [|[e|] rest]; simpl.
  - done.
  - split; [done|]. intros H. by apply (H e rest).
  - done.
Qed.

(** Whatever the outcome, the body loop only appends non-empty chunks. *)
Lemma writeBody_wire fuel r w :
  exists cs, wire (snd (writeBody fuel r w)) = wire w ++ cs
             /\ Forall (fun c => c <> []) cs.
Proof.
  revert w. induction fuel as [|fuel IH]; intros w.
  - exists []. by rewrite app_nil_r.
  - cbn [writeBody]. unfold bind at 1.
    destruct (readBody_socket_out r w) as [Hw _].
    destruct (readBody r w) as [[d|e| |] w1]; cbn [snd] in *;
      try (exists []; by rewrite app_nil_r).
    destruct (Nat.eqb_spec (length d) 0) as [Hz|Hnz].
    { exists []. by rewrite app_nil_r. }
    unfold bind. pose proof (io_soWrite_wire d w1) as Hd.
    destruct (io_soWrite d w1) as [[[]|e| |] w2]; cbn [snd];
      try (exists []; rewrite app_nil_r; destruct Hd as [Hd _];
           split; [congruence|done]).
    destruct (IH w2) as (cs & Hcs & Hne). exists (d :: cs).
    split; [|constructor; [by destruct d|done]].
    destruct Hd as [Hd _]. rewrite Hcs, Hd, Hw. by rewrite <-app_assoc.
Qed.

(** The loop follows [streams]: it ends in the same state, having written
    the same chunks. *)
Lemma streams_writeBody r w cs w' :
  streams r w cs w' ->
  (forall fuel, (length cs < fuel)%nat -> writeBody fuel r w = (Done tt, w'))
  /\ wire w' = wire w ++ cs /\ Forall (fun c => c <> []) cs.
Proof.
  induction 1 as [w w' Hr|w w1 w2 w' d cs Hr Hne Hw Hs IH].
  - pose proof (readBody_socket_out r w) as [Hwire _]. rewrite Hr in Hwire.
    split; [|by rewrite app_nil_r].
    intros [|fuel] Hf; [simpl in Hf; lia|].
    cbn [writeBody]. unfold bind. by rewrite Hr.
  - destruct IH as (IH1 & IH2 & IH3).
    pose proof (readBody_socket_out r w) as [Hwire _]. rewrite Hr in Hwire.
    pose proof (io_soWrite_wire d w1) as Hd. rewrite Hw in Hd.
    destruct Hd as [Hd _]. cbn [snd] in *.
    split; [|split; [|by constructor]].
    + intros [|fuel] Hf; [simpl in Hf; lia|].
      cbn [writeBody]. unfold bind. rewrite Hr.
      destruct (Nat.eqb_spec (length d) 0) as [Hz|_].
      { by destruct d. }
      rewrite Hw. apply IH1. simpl in Hf. lia.
    + rewrite IH2, Hd, Hwire. by rewrite <-app_assoc.
Qed.

(** [streams] is a function of the start state. *)
Lemma streams_deterministic r w cs1 w1 cs2 w2 :
  streams r w cs1 w1 -> streams r w cs2 w2 -> cs1 = cs2 /\ w1 = w2.
Proof.
  intros H1. revert cs2 w2.
  induction H1 as [w w' Hr|w wa wb w' d cs Hr Hne Hw Hs IH]; intros cs2 w2 H2.
  - inversion H2 as [? ? Hr2|? ? ? ? ? ? Hr2 Hne2]; subst.
    + rewrite Hr in Hr2. by injection Hr2 as ->.
    + rewrite Hr in Hr2. injection Hr2 as <- _. done.
  - inversion H2 as [? ? Hr2|? ? ? ? ? ? Hr2 Hne2 Hw2 Hs2]; subst.
    + rewrite Hr in Hr2. injection Hr2 as -> _. done.
    + rewrite Hr in Hr2. injection Hr2 as <- <-.
      rewrite Hw in Hw2. injection Hw2 as <-.
      destruct (IH _ _ Hs2) as [-> ->]. done.
Qed.

Lemma string_concat_lines (hs : list string) :
  String.concat CRLF (hs ++ [CRLF])
  = foldr (fun h acc => h +:+ CRLF +:+ acc) CRLF hs.
Proof.
  induction hs as [|h hs IH]; [done|].
  cbn [foldr app]. rewrite <-IH.
  destruct hs; reflexivity.
Qed.

(** The bytes of the first write: status line, each header line and an
    empty line, every one closed by CRLF. *)
Lemma encodeHTTPResp_layout (res : HTTPRes) :
  encodeHTTPResp res
  = fromLatin1 ("HTTP/1.1 " +:+ number_to_string (code res) +:+ " OK" +:+ CRLF
                +:+ foldr (fun h acc => h +:+ CRLF +:+ acc) CRLF
                      (toLatin1 <$> res_headers res)).
Proof.
  unfold encodeHTTPResp. f_equal.
  change ([?x] ++ ?l) with (x :: l).
  rewrite <-string_concat_lines.
  set (status := _ +:+ _ +:+ " OK").
  assert (Hne : (toLatin1 <$> res_headers res) ++ [CRLF] <> [])
    by (by destruct (toLatin1 <$> res_headers res)).
  destruct ((toLatin1 <$> res_headers res) ++ [CRLF]) eqn:E; [done|].
  cbn [String.concat]. 
  assert (Happ : forall a b c : string, (a +:+ b) +:+ c = a +:+ b +:+ c).
  { intros a b c. induction a; [done|]. rewrite !append_cons. by f_equal. }
  unfold status. by rewrite !Happ.
Qed.

Lemma writeHTTPResp_negative fuel res w :
  body_length (body res) < 0 ->
  writeHTTPResp fuel res w
  = (Raise (JsError "TODO: chunked encoding"), res, w).
Proof.
  intros Hneg. unfold writeHTTPResp.
  by destruct (Z.ltb_spec (body_length (body res)) 0); [|lia].
Qed.

Lemma writeHTTPResp_nonneg fuel res w :
  0 <= body_length (body res) ->
  writeHTTPResp fuel res w
  = (let '(r, w') :=
       (io_soWrite (encodeHTTPResp (withContentLength res)) ;;
        writeBody fuel (body res)) w in
     (r, withContentLength res, w')).
Proof.
  intros Hpos. unfold writeHTTPResp.
  by destruct (Z.ltb_spec (body_length (body res)) 0); [lia|].
Qed.

(** Whatever the outcome, a call with a declared length writes nothing
    before the header block, and nothing at all if that write fails. *)
Lemma writeHTTPResp_wire fuel res w :
  0 <= body_length (body res) ->
  exists o w',
    writeHTTPResp fuel res w = (o, withContentLength res, w')
    /\ (nextWriteOk w ->
        exists cs, wire w' = wire w ++ encodeHTTPResp (withContentLength res) :: cs
                   /\ Forall (fun c => c <> []) cs)
    /\ (~ nextWriteOk w -> wire w' = wire w /\ o <> Done tt).
Proof.
  intros Hpos. rewrite writeHTTPResp_nonneg by done. unfold bind.
  pose proof (io_soWrite_wire (encodeHTTPResp (withContentLength res)) w) as Hd.
  destruct (io_soWrite _ w) as [[[]|e| |] w1].
  - destruct Hd as [Hd Hok].
    destruct (writeBody_wire fuel (body res) w1) as (cs & Hcs & Hne).
    destruct (writeBody fuel (body res) w1) as [o w'] eqn:Eb. cbn [snd] in *.
    exists o, w'. split; [done|]. split; [|done].
    intros _. exists cs. split; [|done]. by rewrite Hcs, Hd, <-app_assoc.
  - destruct Hd. eexists _, _. split; [done|]. split; done.
  - destruct Hd. eexists _, _. split; [done|]. split; done.
  - destruct Hd. eexists _, _. split; [done|]. split; done.
Qed.

(** C6.  With a negative declared length the writer fails and writes
    nothing.  Otherwise it adds a Content-Length line built from the
    declared length, sends the status line, the header lines and the empty
    line in one write, and then reads the body again and again, writing each
    non-empty chunk, until the first empty chunk: it ends in the state that
    read leaves. *)
Theorem writer_streams_response (fuel : nat) (res : HTTPRes) (w : World) :
  (body_length (body res) < 0 ->
     writeHTTPResp fuel res w
     = (Raise (JsError "TODO: chunked encoding"), res, w))
  /\ (0 <= body_length (body res) ->
      forall w1 cs w',
        io_soWrite (encodeHTTPResp (withContentLength res)) w = (Done tt, w1) ->
        streams (body res) w1 cs w' -> (length cs < fuel)%nat ->
        writeHTTPResp fuel res w = (Done tt, withContentLength res, w')
        /\ wire w' = wire w ++ encodeHTTPResp (withContentLength res) :: cs
        /\ Forall (fun c => c <> []) cs
        /\ encodeHTTPResp (withContentLength res)
           = fromLatin1
               ("HTTP/1.1 " +:+ number_to_string (code res) +:+ " OK" +:+ CRLF
                +:+ foldr (fun h acc => h +:+ CRLF +:+ acc) CRLF
                      (toLatin1 <$>
                         res_headers res
                         ++ [fromLatin1 ("Content-Length: " +:+
                               number_to_string (body_length (body res)))]))).
Proof.
  split; [apply writeHTTPResp_negative|].
  intros Hpos w1 cs w' Hw Hs Hfuel.
  destruct (streams_writeBody _ _ _ _ Hs) as (Hrun & Hwire & Hne).
  pose proof (io_soWrite_wire (encodeHTTPResp (withContentLength res)) w) as Hd.
  rewrite Hw in Hd. destruct Hd as [Hd _].
  split; [|split; [|split; [done|]]].
  - rewrite writeHTTPResp_nonneg by done. unfold bind.
    rewrite Hw, (Hrun fuel Hfuel). done.
  - by rewrite Hwire, Hd, <-app_assoc.
  - apply encodeHTTPResp_layout.
Qed.

Lemma writer_streams_response_witness :
  exists w',
    writeHTTPResp 3 twoByteRes twoByteWorld
    = (Done tt, withContentLength twoByteRes, w')
    /\ wire w'
       = [fromLatin1 ("HTTP/1.1 200 OK" +:+ CRLF +:+ "Server: x" +:+ CRLF
                      +:+ "Content-Length: 2" +:+ CRLF +:+ CRLF);
          fromLatin1 "hi"].
Proof.
  eexists.
  assert (Hpos : 0 <= body_length (body twoByteRes)) by (vm_compute; discriminate).
  edestruct (proj2 (writer_streams_response 3 twoByteRes twoByteWorld) Hpos)
    as (H1 & H2 & _).
  - reflexivity.
  - eapply streams_chunk; [reflexivity|discriminate|reflexivity|].
    apply streams_end. reflexivity.
  - simpl. lia.
  - split; [exact H1|]. rewrite H2. reflexivity.
Defined.

(** C10.  When the declared length is not negative the call leaves the
    caller's response with one more header line, the Content-Length line,
    whatever the outcome of the writes; a second call on the same response
    adds the line again, and the header block it sends carries it twice. *)
Theorem writer_appends_content_length (fuel : nat) (res : HTTPRes) (w : World) :
  0 <= body_length (body res) ->
  let cl := contentLengthLine (body_length (body res)) in
  exists o1 w1 o2 res2 w2,
    writeHTTPResp fuel res w = (o1, withContentLength res, w1)
    /\ res_headers (withContentLength res) = res_headers res ++ [cl]
    /\ length (res_headers (withContentLength res))
       = S (length (res_headers res))
    /\ writeHTTPResp fuel (withContentLength res) w1 = (o2, res2, w2)
    /\ res_headers res2 = res_headers res ++ [cl; cl]
    /\ (nextWriteOk w1 ->
        exists cs, wire w2 = wire w1 ++ encodeHTTPResp res2 :: cs)
    /\ encodeHTTPResp res2
       = fromLatin1
           ("HTTP/1.1 " +:+ number_to_string (code res) +:+ " OK" +:+ CRLF
            +:+ foldr (fun h acc => h +:+ CRLF +:+ acc) CRLF
                  (toLatin1 <$> res_headers res ++ [cl; cl])).
Proof.
  intros Hpos cl.
  destruct (writeHTTPResp_wire fuel res w Hpos) as (o1 & w1 & H1 & _).
  destruct (writeHTTPResp_wire fuel (withContentLength res) w1 Hpos)
    as (o2 & w2 & H2 & Hok & _).
  exists o1, w1, o2, (withContentLength (withContentLength res)), w2.
  assert (Hh : res_headers (withContentLength (withContentLength res))
               = res_headers res ++ [cl; cl]).
  { cbn [withContentLength res_headers body]. by rewrite <-app_assoc. }
  split; [exact H1|]. split; [reflexivity|]. split.
  { cbn [withContentLength res_headers]. rewrite length_app. simpl. lia. }
  split; [exact H2|]. split; [exact Hh|]. split.
  - intros Hnext. destruct (Hok Hnext) as (cs & Hcs & _). eauto.
  - rewrite encodeHTTPResp_layout, Hh. reflexivity.
Qed.

Lemma writer_appends_content_length_witness :
  0 <= body_length (body twoByteRes)
  /\ exists o1 w1 o2 res2 w2,
       writeHTTPResp 3 twoByteRes twoByteWorld
       = (o1, withContentLength twoByteRes, w1)
       /\ writeHTTPResp 3 (withContentLength twoByteRes) w1 = (o2, res2, w2)
       /\ res_headers res2
          = [fromLatin1 "Server: x"; fromLatin1 "Content-Length: 2";
             fromLatin1 "Content-Length: 2"].
Proof.
  assert (Hpos : 0 <= body_length (body twoByteRes)) by (vm_compute; discriminate).
  split; [exact Hpos|].
  destruct (writer_appends_content_length 3 twoByteRes twoByteWorld Hpos)
    as (o1 & w1 & o2 & res2 & w2 & H1 & _ & _ & H2 & H3 & _).
  exists o1, w1, o2, res2, w2. split; [exact H1|]. split; [exact H2|].
  rewrite H3. reflexivity.
Defined.

(* ------------------------------------------------------------------ *)
(** * The serve loop *)

Lemma bind_ret_tt (m : M unit) (w : World) : (m ;; ret tt) w = m w.
Proof. unfold bind, ret. by destruct (m w) as [[[]|e| |] w']. Qed.

Lemma nextWriteOk_dec (w : World) : nextWriteOk w \/ ~ nextWriteOk w.
Proof.
  unfold nextWriteOk.
  destruct (write_results (socket (w_conn w))) as [|[e|] rest].
  - by left.
  - right. intros H. by apply (H e rest).
  - by left.
Qed.

Lemma io_cutMessage_conn w o w' :
  io_cutMessage w = (o, w') -> w_conn w' = w_conn w.
Proof.
  unfold io_cutMessage. unfold_io.
  destruct (cutMessage (w_buf w)) as [[m b]|e]; by intros [= <- <-].
Qed.

Lemma readerFromReq_conn msg w :
  w_conn (snd (readerFromReq msg w)) = w_conn w.
Proof.
  unfold readerFromReq.
  destruct (negb (negb _)); [done|].
  destruct (fieldGet (headers msg) "Content-Length") as [v|].
  - by destruct (parseInt (toLatin1 v)).
  - by destruct (is_chunked _).
Qed.

Lemma handleReq_shape msg rb w :
  exists resp w',
    handleReq msg rb w
    = (Done (mkHTTPRes 200 [fromLatin1 "Server: my_first_http_server"] resp),
       w')
    /\ w_conn w' = w_conn w.
Proof.
  unfold handleReq. destruct (String.eqb _ "/echo"); eexists _, _; done.
Qed.

Lemma io_soWrite_fuel d w : fst (io_soWrite d w) <> OutOfFuel.
Proof.
  unfold io_soWrite, soWrite.
  by destruct (write_results (socket (w_conn w))) as [|[e|] rest].
Qed.

Lemma pump_fuel evs c : fst (pump evs c) <> OutOfFuel.
Proof.
  revert c. induction evs as [|ev evs IH]; intros c; [done|].
  cbn [pump]. destruct (deliver ev c) as [[[d|e]|] c']; [done..|]. apply IH.
Qed.

Lemma awaitRead_fuel c : fst (awaitRead c) <> OutOfFuel.
Proof.
  unfold awaitRead, soRead. destruct (ended c); [done|].
  destruct (err c); [done|]. apply pump_fuel.
Qed.

(** A single [read] has no loop to cut short. *)
Lemma readBody_fuel r w : fst (readBody r w) <> OutOfFuel.
Proof.
  unfold readBody.
  destruct (w_cells w !! body_cell r) as [[data [|]|rem]|]; try done.
  unfold readConn. destruct (rem =? 0); [done|]. unfold_io.
  destruct (buf_length (w_buf w) =? 0)%nat; [|done]. io_simpl.
  pose proof (awaitRead_fuel (w_conn w)) as Hs.
  destruct (awaitRead (w_conn w)) as [[d| e | |] c]; try done.
  io_simpl. by destruct (length d =? 0)%nat.
Qed.

Lemma io_soWrite_cells d w : w_cells (snd (io_soWrite d w)) = w_cells w.
Proof.
  unfold io_soWrite, soWrite.
  by destruct (write_results (socket (w_conn w))) as [|[e|] rest].
Qed.

(** The body loop over a connection reader that owes [rem >= 0] bytes
    ends within [rem + 1] reads. *)
Lemma writeBody_conn_terminates (fuel : nat) (r : BodyReader) (w : World)
      (rem : Z) :
  0 <= rem -> w_cells w !! body_cell r = Some (ConnCell rem) ->
  (Z.to_nat rem < fuel)%nat ->
  fst (writeBody fuel r w) <> OutOfFuel.
Proof.
  revert w rem. induction fuel as [|fuel IH]; intros w rem Hrem Hcell Hfuel.
  - lia.
  - cbn [writeBody]. unfold bind at 1.
    destruct (readBody r w) as [o w1] eqn:Er.
    rewrite (readBody_conn _ _ _ Hcell) in Er.
    destruct (readConn_step _ _ _ _ _ Hrem Hcell Er) as (rem' & Hc' & Hr' & Ho).
    pose proof (readBody_fuel r w) as Hnf.
    rewrite (readBody_conn _ _ _ Hcell), Er in Hnf.
    destruct o as [d|e| |]; try (cbn [fst]; done).
    destruct (Nat.eqb_spec (length d) 0) as [Hz|Hnz]; [cbn [fst]; done|].
    unfold bind. pose proof (io_soWrite_cells d w1) as Hcells.
    pose proof (io_soWrite_fuel d w1) as Hwf.
    destruct (io_soWrite d w1) as [[[]|e| |] w2]; try (cbn [fst]; done).
    cbn [snd] in Hcells. apply (IH w2 rem'); [done|by rewrite Hcells|lia].
Qed.

Lemma writeBody_S (fuel : nat) (r : BodyReader) (w : World) :
  writeBody (S fuel) r w
  = match readBody r w with
    | (Done d, w1) =>
        if (length d =? 0)%nat then (Done tt, w1)
        else match io_soWrite d w1 with
             | (Done _, w2) => writeBody fuel r w2
             | (Raise e, w2) => (Raise e, w2)
             | (Blocked, w2) => (Blocked, w2)
             | (OutOfFuel, w2) => (OutOfFuel, w2)
             end
    | (Raise e, w1) => (Raise e, w1)
    | (Blocked, w1) => (Blocked, w1)
    | (OutOfFuel, w1) => (OutOfFuel, w1)
    end.
Proof.
  cbn [writeBody]. unfold bind at 1.
  destruct (readBody r w) as [[d|e| |] w1]; try done.
  by destruct (length d =? 0)%nat.
Qed.

Lemma readBody_mem_first (r : BodyReader) (w : World) data :
  w_cells w !! body_cell r = Some (MemCell data false) ->
  readBody r w
  = (Done data,
     mkWorld (w_conn w) (w_buf w)
             (<[body_cell r:=MemCell data true]> (w_cells w))).
Proof. intros Hc. by rewrite (readBody_mem _ _ _ _ Hc). Qed.

Lemma readBody_mem_done (r : BodyReader) (w : World) data :
  w_cells w !! body_cell r = Some (MemCell data true) ->
  readBody r w = (Done [], w).
Proof. intros Hc. by rewrite (readBody_mem _ _ _ _ Hc). Qed.

(** Over a memory reader it ends within two reads. *)
Lemma writeBody_mem_terminates (fuel : nat) (r : BodyReader) (w : World)
      data done :
  w_cells w !! body_cell r = Some (MemCell data done) ->
  (2 <= fuel)%nat ->
  fst (writeBody fuel r w) <> OutOfFuel.
Proof.
  intros Hcell Hfuel. destruct fuel as [|[|fuel]]; [lia..|].
  assert (Ha : (body_cell r < length (w_cells w))%nat)
    by (by eapply lookup_lt_Some).
  rewrite writeBody_S. destruct done.
  { by rewrite (readBody_mem_done _ _ _ Hcell). }
  rewrite (readBody_mem_first _ _ _ Hcell).
  destruct (length data =? 0)%nat; [done|].
  set (w1 := mkWorld _ _ _).
  pose proof (io_soWrite_cells data w1) as Hcells.
  pose proof (io_soWrite_fuel data w1) as Hwf.
  destruct (io_soWrite data w1) as [[[]|e| |] w2]; try done.
  cbn [snd] in Hcells.
  assert (Hc2 : w_cells w2 !! body_cell r = Some (MemCell data true)).
  { rewrite Hcells. unfold w1. cbn [w_cells].
    by rewrite list_lookup_insert_eq. }
  rewrite writeBody_S, (readBody_mem_done _ _ _ Hc2). done.
Qed.

Lemma writeHTTPResp_terminates (fuel : nat) (res : HTTPRes) (w : World) :
  readerFresh (body res) w ->
  (2 <= fuel)%nat -> (Z.to_nat (body_length (body res)) < fuel)%nat ->
  fst (io_writeHTTPResp fuel res w) <> OutOfFuel.
Proof.
  intros Hfresh H2 Hlen. unfold io_writeHTTPResp.
  destruct (Z.ltb_spec (body_length (body res)) 0) as [Hneg|Hpos].
  { rewrite writeHTTPResp_negative by done. cbn [fst]. done. }
  rewrite writeHTTPResp_nonneg by done. unfold bind.
  pose proof (io_soWrite_cells (encodeHTTPResp (withContentLength res)) w)
    as Hcells.
  pose proof (io_soWrite_fuel (encodeHTTPResp (withContentLength res)) w)
    as Hwf.
  destruct (io_soWrite _ w) as [[[]|e| |] w1]; try (cbn [fst]; done).
  cbn [snd] in Hcells.
  destruct (writeBody fuel (body res) w1) as [o w2] eqn:Eb. cbn [fst].
  intros ->.
  destruct Hfresh as [Hc|[data Hc]]; rewrite <-Hcells in Hc.
  - eapply writeBody_conn_terminates; [| |exact Hlen|]; [done..|].
    by rewrite Eb.
  - eapply writeBody_mem_terminates; [done..|]. by rewrite Eb.
Qed.

Lemma readerFromReq_fresh msg w rb w' :
  readerFromReq msg w = (Done rb, w') ->
  readerFresh rb w' /\ (length (w_cells w) < length (w_cells w'))%nat.
Proof.
  assert (Hmem : forall d,
    readerFromMemory d w = (Done rb, w') ->
    readerFresh rb w' /\ (length (w_cells w) < length (w_cells w'))%nat).
  { intros d [= <- <-]. unfold readerFresh.
    cbn [w_cells body_cell body_length]. split.
    - right. exists d. by rewrite lookup_app_r, Nat.sub_diag.
    - rewrite length_app. simpl. lia. }
  unfold readerFromReq.
  destruct (negb (negb _)); [apply Hmem|].
  destruct (fieldGet (headers msg) "Content-Length") as [v|].
  - destruct (parseInt (toLatin1 v)) as [n|]; [|done].
    intros [= <- <-]. unfold readerFresh.
    cbn [w_cells body_cell body_length]. split.
    + left. by rewrite lookup_app_r, Nat.sub_diag.
    + rewrite length_app. simpl. lia.
  - destruct (is_chunked _); apply Hmem.
Qed.

Lemma handleReq_fresh msg rb w res w' :
  readerFresh rb w -> handleReq msg rb w = (Done res, w') ->
  readerFresh (body res) w'
  /\ (body res = rb
      \/ body_length (body res)
         = Z.of_nat (length (fromLatin1 ("hello world." +:+ NL)))).
Proof.
  intros Hfresh. unfold handleReq.
  destruct (String.eqb _ "/echo").
  - intros [= <- <-]. split; [done|by left].
  - intros [= <- <-]. split; [|by right].
    unfold readerFresh. right. eexists. simpl.
    by rewrite lookup_app_r, Nat.sub_diag.
Qed.

(** One pass of the loop body ends once the fuel covers the declared
    body length. *)
Lemma serveOnce_terminates (msg : HTTPReq) (w : World) :
  exists bound, forall fuel,
    (bound <= fuel)%nat -> fst (serveOnce fuel msg w) <> OutOfFuel.
Proof.
  unfold serveOnce, bind.
  destruct (readerFromReq msg w) as [[rb|e| |] wa] eqn:Er;
    try (by exists 0%nat).
  - apply readerFromReq_fresh in Er as [Hfresh _].
    destruct (handleReq_shape msg rb wa) as (resp & wb & Hh & _).
    destruct (handleReq_fresh _ _ _ _ _ Hfresh Hh) as [Hf Hlen].
    rewrite Hh.
    exists (Nat.max 14 (S (Z.to_nat (body_length rb)))). intros fuel Hfuel.
    apply writeHTTPResp_terminates; [done|lia|].
    cbn [body] in *. destruct Hlen as [Hl | Hl]; rewrite Hl; [lia|].
    simpl. lia.
  - exfalso. unfold readerFromReq in Er.
    destruct (negb (negb _)); [done|].
    destruct (fieldGet (headers msg) "Content-Length") as [v|].
    + by destruct (parseInt (toLatin1 v)).
    + by destruct (is_chunked _).
Qed.

(** C7.  Once a request with version 1.0 has been extracted, the rest of
    the serve loop is one pass of building the body reader, calling the
    handler and writing the response: the loop then returns, whatever is
    left in the buffer or still to come on the socket.  When it returns
    normally it has written one header block followed by body chunks, and it
    does return (or fail, or wait for the peer) once the fuel of the model
    covers the declared body length. *)
Theorem http10_served_once (fuel : nat) (w w1 : World) (msg : HTTPReq) :
  io_cutMessage w = (Done (Some msg), w1) ->
  version msg = "1.0" ->
  serveLoop (S fuel) w = serveOnce fuel msg w1
  /\ (forall w', serveLoop (S fuel) w = (Done tt, w') ->
      exists res cs,
        wire w' = wire w ++ encodeHTTPResp res :: cs
        /\ code res = 200 /\ Forall (fun c => c <> []) cs)
  /\ (exists bound, forall fuel',
        (bound <= fuel')%nat -> fst (serveLoop (S fuel') w) <> OutOfFuel).
Proof.
  intros Hcut Hver.
  assert (Hloop : forall f, serveLoop (S f) w = serveOnce f msg w1).
  { intros f. cbn [serveLoop]. unfold bind at 1. rewrite Hcut.
    unfold serveOnce, bind.
    destruct (readerFromReq msg w1) as [[rb|e| |] wa]; try done.
    destruct (handleReq msg rb wa) as [[res|e| |] wb]; try done.
    rewrite Hver. cbn [String.eqb Ascii.eqb Bool.eqb].
    fold (bind (io_writeHTTPResp f res) (fun _ => ret tt) wb).
    apply bind_ret_tt. }
  split; [apply Hloop|]. split; [|
    destruct (serveOnce_terminates msg w1) as [bound Hb]; exists bound;
    intros f Hf; rewrite Hloop; by apply Hb].
  intros w' Hdone. rewrite Hloop in Hdone. unfold serveOnce, bind in Hdone.
  pose proof (readerFromReq_conn msg w1) as Hc1.
  destruct (readerFromReq msg w1) as [[rb|e| |] wa]; try done.
  destruct (handleReq_shape msg rb wa) as (resp & wb & Hh & Hc2).
  rewrite Hh in Hdone. unfold io_writeHTTPResp in Hdone.
  set (res := mkHTTPRes 200 _ resp) in *.
  destruct (Z.ltb_spec (body_length (body res)) 0) as [Hneg|Hpos].
  { by rewrite writeHTTPResp_negative in Hdone. }
  destruct (writeHTTPResp_wire fuel res wb Hpos) as (o & w2 & Hw & Hok & Hbad).
  rewrite Hw in Hdone. injection Hdone as -> ->.
  destruct (nextWriteOk_dec wb) as [Hnext|Hnext].
  - destruct (Hok Hnext) as (cs & Hcs & Hne).
    exists (withContentLength res), cs. split; [|done].
    rewrite Hcs. unfold wire. cbn [snd] in Hc1.
    by rewrite Hc2, Hc1, (io_cutMessage_conn _ _ _ Hcut).
  - by destruct (Hbad Hnext) as [_ []].
Qed.

Lemma http10_served_once_witness :
  exists w',
    serveLoop 4 (bufferedWorld twoRequests [EvData twoRequests; EvEnd])
    = (Done tt, w')
    /\ wire w'
       = [fromLatin1 ("HTTP/1.1 200 OK" +:+ CRLF
                      +:+ "Server: my_first_http_server" +:+ CRLF
                      +:+ "Content-Length: 13" +:+ CRLF +:+ CRLF);
          fromLatin1 ("hello world." +:+ NL)]
    /\ occupied (w_buf w') = secondRequest
    /\ incoming (socket (w_conn w')) = [EvData twoRequests; EvEnd].
Proof.
  eexists.
  edestruct (http10_served_once 3
               (bufferedWorld twoRequests [EvData twoRequests; EvEnd]))
    as (Heq & _ & _).
  - vm_compute. reflexivity.
  - reflexivity.
  - rewrite Heq. split; [vm_compute; reflexivity|].
    split; [|split]; vm_compute; reflexivity.
Defined.

(* ------------------------------------------------------------------ *)
(** * Latched end and error *)

Lemma connStep_ended (conn : TCPConn) (s : ConnStep) :
  ended conn = true -> ended (connStep conn s) = true.
Proof.
  intros He. destruct s as [|[d| |e]]; simpl.
  - unfold soRead. by rewrite He.
  - unfold onData. by destruct (reader conn).
  - unfold onEnd. by destruct (reader conn).
  - unfold onError. by destruct (reader conn).
Qed.

Lemma connSteps_ended (steps : list ConnStep) (conn : TCPConn) :
  ended conn = true -> ended (connSteps steps conn) = true.
Proof.
  revert conn. induction steps as [|s steps IH]; intros conn He; [done|].
  apply IH. by apply connStep_ended.
Qed.

Lemma soRead_ended (conn : TCPConn) :
  ended conn = true -> soRead conn = (Some (Resolved []), conn).
Proof. intros He. unfold soRead. by rewrite He. Qed.

Lemma soRead_failed (conn : TCPConn) (e : JsExn) :
  ended conn = false -> err conn = Some e ->
  soRead conn = (Some (Rejected e), conn).
Proof. intros He Hr. unfold soRead. by rewrite He, Hr. Qed.

Lemma reads_latched (conn : TCPConn) (k : nat) :
  ended conn = true \/ is_Some (err conn) ->
  connSteps (replicate k StepRead) conn = conn.
Proof.
  intros Hl. induction k as [|k IH]; [done|].
  cbn [replicate connSteps foldl connStep].
  assert (Hs : snd (soRead conn) = conn).
  { unfold soRead. destruct (ended conn); [done|].
    destruct Hl as [|[e He]]; [done|]. by rewrite He. }
  rewrite Hs. exact IH.
Qed.

(** C9, as amended.  Once the clean-end flag is set, every read returns
    the empty chunk and leaves the connection as it is, after any further
    reads and socket events.  Once the error field is set and the clean-end
    flag is not, every read fails with the stored error and leaves the
    connection as it is, so any number of reads in a row fail alike.  When
    both are set the clean end wins. *)
Theorem latched_end_and_error (conn : TCPConn) :
  (ended conn = true ->
     forall steps,
       soRead (connSteps steps conn)
       = (Some (Resolved []), connSteps steps conn))
  /\ (forall e, ended conn = false -> err conn = Some e ->
      forall k,
        soRead (connSteps (replicate k StepRead) conn)
        = (Some (Rejected e), conn)).
Proof.
  split.
  - intros He steps. apply soRead_ended. by apply connSteps_ended.
  - intros e He Hr k. rewrite reads_latched by (right; by rewrite Hr).
    by apply soRead_failed.
Qed.

Lemma latched_end_and_error_witness :
  soRead (connSteps [StepEvent (EvError resetError); StepRead]
            (connSteps [StepRead; StepEvent EvEnd] (soInit idleSocket)))
  = (Some (Resolved []),
     connSteps [StepEvent (EvError resetError); StepRead]
       (connSteps [StepRead; StepEvent EvEnd] (soInit idleSocket)))
  /\ soRead (connSteps (replicate 3 StepRead)
               (connSteps [StepRead; StepEvent (EvError resetError)]
                  (soInit idleSocket)))
     = (Some (Rejected resetError),
        connSteps [StepRead; StepEvent (EvError resetError)]
          (soInit idleSocket)).
Proof.
  split.
  - apply (proj1 (latched_end_and_error
                    (connSteps [StepRead; StepEvent EvEnd] (soInit idleSocket)))).
    reflexivity.
  - apply (proj2 (latched_end_and_error
                    (connSteps [StepRead; StepEvent (EvError resetError)]
                       (soInit idleSocket)))); reflexivity.
Defined.

(** C9 as stated fails when both fields are set: after a read has seen the
    clean end and the transport has then reported an error, the error is
    stored, yet a read returns the empty chunk and does not fail with it.
    With the events in the other order the observation changes from the
    error to the empty chunk. *)
Lemma latched_error_counterexample :
  err endThenError = Some resetError
  /\ ended endThenError = true
  /\ soRead endThenError = (Some (Resolved []), endThenError)
  /\ fst (soRead endThenError) <> Some (Rejected resetError)
  /\ (let failed := connSteps [StepEvent (EvError resetError)]
                              (soInit idleSocket) in
      fst (soRead failed) = Some (Rejected resetError)
      /\ fst (soRead (connSteps [StepEvent EvEnd] failed))
         = Some (Resolved [])).
Proof. repeat split. discriminate. Qed.

(* ------------------------------------------------------------------ *)
(** * The whole connection on sample inputs *)

Example serve_get_default_body :
  let w := snd (newConn 10
                  (freshWorld
                     [EvData (fromLatin1 ("GET /missing HTTP/1.1" +:+ CRLFCRLF));
                      EvEnd])) in
  wire w
  = [fromLatin1 ("HTTP/1.1 200 OK" +:+ CRLF
                 +:+ "Server: my_first_http_server" +:+ CRLF
                 +:+ "Content-Length: 13" +:+ CRLF +:+ CRLF);
     fromLatin1 ("hello world." +:+ NL)]
  /\ destroyed (socket (w_conn w)) = true.
Proof. vm_compute. done. Qed.

Example serve_post_echo :
  let w := snd (newConn 10
                  (freshWorld
                     [EvData (fromLatin1 ("POST /echo HTTP/1.1" +:+ CRLF
                                          +:+ "Content-Length: 5" +:+ CRLFCRLF
                                          +:+ "hello"));
                      EvEnd])) in
  wire w
  = [fromLatin1 ("HTTP/1.1 200 OK" +:+ CRLF
                 +:+ "Server: my_first_http_server" +:+ CRLF
                 +:+ "Content-Length: 5" +:+ CRLF +:+ CRLF);
     fromLatin1 "hello"]
  /\ destroyed (socket (w_conn w)) = true.
Proof. vm_compute. done. Qed.

Example serve_two_token_request_line :
  let w := snd (newConn 10
                  (freshWorld
                     [EvData (fromLatin1 ("GET /index.html" +:+ CRLFCRLF));
                      EvEnd])) in
  wire w
  = [fromLatin1 ("HTTP/1.1 400 OK" +:+ CRLF
                 +:+ "Content-Length: 17" +:+ CRLF +:+ CRLF);
     fromLatin1 ("Bad request line" +:+ NL)]
  /\ destroyed (socket (w_conn w)) = true.
Proof. vm_compute. done. Qed.

(** The reader of declared length -5 reaches the writer through the echo
    handler, where the negative length is taken for the unknown-length
    marker: the connection is closed without any response. *)
Example serve_negative_content_length :
  let r := newConn 10
             (freshWorld
                [EvData (fromLatin1 ("POST /echo HTTP/1.1" +:+ CRLF
                                     +:+ "Content-Length: -5" +:+ CRLFCRLF
                                     +:+ "hello"));
                 EvEnd]) in
  fst r = Done tt /\ wire (snd r) = []
  /\ destroyed (socket (w_conn (snd r))) = true.
Proof. vm_compute. done. Qed.

(* ------------------------------------------------------------------ *)
(** * Further properties: header lines *)

Lemma collectHeaders_spec (lines : list Buffer) :
  collectHeaders lines
  = if decide (Forall (fun h => colon ∈ h) (filter (fun h => h <> []) lines))
    then Ok (filter (fun h => h <> []) lines)
    else Throw (HTTPError 400 "Invalid header field").
Proof.
  induction lines as [|h rest IH]; [done|].
  cbn [collectHeaders]. destruct h as [|b h].
  - cbn [length Nat.eqb]. rewrite IH. by rewrite filter_cons_False by (by intros []).
  - cbn [length Nat.eqb]. rewrite filter_cons_True by done.
    unfold validateHeader. cbn [length Nat.eqb].
    destruct (decide (colon ∈ b :: h)) as [Hin|Hnot].
    + rewrite bool_decide_eq_true_2 by done. cbn [negb]. rewrite IH.
      destruct (decide (Forall _ (filter _ rest))) as [Hall|Hno].
      * rewrite decide_True by (by constructor). done.
      * rewrite decide_False; [done|]. intros H. by inversion H.
    + rewrite bool_decide_eq_false_2 by done. cbn [negb].
      rewrite decide_False; [done|]. intros H. by inversion H.
Qed.

(** X1.  Once the request line is accepted, the headers of the request are
    the non-empty lines between the request line and the last line, in
    order, and the request is accepted exactly when each of them holds a
    colon; otherwise the parser throws 400 Invalid header field. *)
Theorem header_lines_validated (data rl : Buffer) (m : string) (u : Buffer)
        (v : string) :
  splitLines data !! 0%nat = Some rl ->
  parseRequestLine rl = Ok (m, u, v) ->
  let hs := filter (fun h => h <> []) (slice_1_m1 (splitLines data)) in
  (Forall (fun h => colon ∈ h) hs ->
     parseHTTPReq data = Ok (mkHTTPReq m u v hs))
  /\ (~ Forall (fun h => colon ∈ h) hs ->
      parseHTTPReq data = Throw (HTTPError 400 "Invalid header field")).
Proof.
  intros Hrl Hline hs. unfold parseHTTPReq. rewrite Hrl, Hline.
  rewrite collectHeaders_spec. fold hs.
  split; intros H; [by rewrite decide_True|by rewrite decide_False].
Qed.

Lemma header_lines_validated_witness :
  parseHTTPReq (fromLatin1 ("GET / HTTP/1.1" +:+ CRLF +:+ "Host: a" +:+ CRLF
                            +:+ CRLF +:+ "no colon here" +:+ CRLF +:+ CRLF))
  = Throw (HTTPError 400 "Invalid header field")
  /\ parseHTTPReq (fromLatin1 ("GET / HTTP/1.1" +:+ CRLF +:+ "Host: a" +:+ CRLF
                               +:+ CRLF +:+ "B:" +:+ CRLF +:+ CRLF))
     = Ok (mkHTTPReq "GET" (fromLatin1 "/") "1.1"
                     [fromLatin1 "Host: a"; fromLatin1 "B:"]).
Proof.
  split.
  - apply (proj2 (header_lines_validated
                    (fromLatin1 ("GET / HTTP/1.1" +:+ CRLF +:+ "Host: a"
                                 +:+ CRLF +:+ CRLF +:+ "no colon here"
                                 +:+ CRLF +:+ CRLF))
                    (fromLatin1 "GET / HTTP/1.1")
                    "GET" (fromLatin1 "/") "1.1" eq_refl eq_refl)).
    intros H. apply Forall_cons in H as [_ H].
    apply Forall_cons in H as [H _].
    apply (bool_decide_pack _) in H. vm_compute in H. exact H.
  - apply (proj1 (header_lines_validated
                    (fromLatin1 ("GET / HTTP/1.1" +:+ CRLF +:+ "Host: a"
                                 +:+ CRLF +:+ CRLF +:+ "B:" +:+ CRLF +:+ CRLF))
                    (fromLatin1 "GET / HTTP/1.1")
                    "GET" (fromLatin1 "/") "1.1" eq_refl eq_refl)).
    apply Forall_cons. split; [|apply Forall_cons; split; [|apply Forall_nil_2]];
      apply (bool_decide_unpack _); vm_compute; exact I.
Defined.

(* ------------------------------------------------------------------ *)
(** * Further properties: what the framer consumes *)

(** X2.  On a well-formed buffer, when the framer returns a request it
    has parsed the bytes up to and including the first terminator and has
    removed exactly those bytes: what followed them is now the occupied
    prefix, and the storage keeps its size. *)
Theorem cutMessage_consumes_header_block (buf b' : DynBuf) (msg : HTTPReq) :
  buf_wf buf ->
  cutMessage buf = Ok (Some msg, b') ->
  exists i : nat,
    indexOf (occupied buf) terminator = Z.of_nat i
    /\ parseHTTPReq (take (i + 4) (occupied buf)) = Ok msg
    /\ occupied b' = drop (i + 4) (occupied buf)
    /\ buf_wf b'
    /\ length (buf_data b') = length (buf_data buf).
Proof.
  intros Hwf Hcut.
  pose proof (cutMessage_frame buf Hwf) as Hf. rewrite Hcut in Hf.
  pose proof (cutMessage_pop_in_range buf) as Hrange.
  revert Hcut Hf. unfold cutMessage, frame. fold terminator.
  destruct (Z.ltb_spec (indexOf (occupied buf) terminator) 0) as [Hi|Hi].
  { destruct (_ <=? _)%nat; discriminate. }
  specialize (Hrange Hi).
  set (idx := indexOf (occupied buf) terminator) in *. clearbody idx.
  replace (idx + 4) with (Z.of_nat (Z.to_nat idx + 4)) by lia.
  rewrite Nat2Z.id.
  destruct (parseHTTPReq (subarray _ _ _)) as [m'|e]; [|discriminate].
  intros [= -> <-] Hf.
  exists (Z.to_nat idx). split; [lia|]. split; [|split; [|split]].
  - destruct (parseHTTPReq (take _ _)); congruence.
  - apply bufPop_occupied; [done|lia].
  - by apply bufPop_wf.
  - unfold bufPop. cbn [buf_data]. apply length_copyWithin.
Qed.

Lemma cutMessage_consumes_header_block_witness :
  exists b',
    cutMessage (bufPush emptyBuf twoRequests)
    = Ok (Some (mkHTTPReq "GET" (fromLatin1 "/a") "1.0" []), b')
    /\ occupied b' = secondRequest.
Proof.
  eexists. split; [vm_compute; reflexivity|].
  edestruct (cutMessage_consumes_header_block (bufPush emptyBuf twoRequests))
    as (i & Hi & _ & Hocc & _).
  - apply bufPush_wf.
  - vm_compute. reflexivity.
  - rewrite Hocc.
    assert (i = 15%nat) as -> by (apply Nat2Z.inj; rewrite <-Hi; reflexivity).
    reflexivity.
Defined.

(* ------------------------------------------------------------------ *)
(** * Further properties: growth of the storage *)

Lemma growLoop_lt (fuel cap newLen : nat) :
  (cap < newLen)%nat -> (growLoop fuel cap newLen < 2 * newLen)%nat.
Proof.
  revert cap. induction fuel as [|fuel IH]; intros cap Hlt; simpl; [lia|].
  destruct (Nat.ltb_spec cap newLen); [|lia].
  destruct (Nat.lt_ge_cases (cap * 2) newLen) as [H2|H2].
  - by apply IH.
  - destruct fuel; simpl; [lia|].
    destruct (Nat.ltb_spec (cap * 2) newLen); lia.
Qed.

Lemma growLoop_id (fuel cap newLen : nat) :
  (newLen <= cap)%nat -> growLoop fuel cap newLen = cap.
Proof.
  intros Hle. destruct fuel; simpl; [done|].
  destruct (Nat.ltb_spec cap newLen); [lia|done].
Qed.

(** X3.  Appending never shrinks the storage, keeps it as it is when the
    bytes fit, and otherwise grows it to at least the new length and to
    less than twice the new length (32 bytes at least). *)
Theorem bufPush_capacity (buf : DynBuf) (data : Buffer) :
  let newLen := (buf_length buf + length data)%nat in
  let cap := length (buf_data buf) in
  let cap' := length (buf_data (bufPush buf data)) in
  (cap <= cap')%nat
  /\ (newLen <= cap')%nat
  /\ (cap' <= Nat.max cap (Nat.max 32 (2 * newLen - 1)))%nat
  /\ ((newLen <= cap)%nat -> cap' = cap).
Proof.
  intros newLen cap cap'.
  assert (Hcap' : cap' = if (cap <? newLen)%nat
                         then growCap (Nat.max cap 32) newLen else cap).
  { unfold cap', bufPush. cbn [buf_data]. rewrite length_copy.
    fold newLen cap. destruct (cap <? newLen)%nat; [|done].
    rewrite length_copy. unfold alloc. by rewrite length_replicate. }
  rewrite Hcap'. destruct (Nat.ltb_spec cap newLen) as [Hlt|Hge].
  - pose proof (growCap_ge (Nat.max cap 32) newLen ltac:(lia)) as Hge.
    unfold growCap in *.
    destruct (Nat.lt_ge_cases (Nat.max cap 32) newLen) as [H|H].
    + pose proof (growLoop_lt newLen _ _ H). lia.
    + rewrite growLoop_id in * by done. lia.
  - lia.
Qed.

Lemma bufPush_capacity_witness :
  length (buf_data (bufPush (bufPush emptyBuf (fromLatin1 "hello"))
                            (fromLatin1 "!")))
  = length (buf_data (bufPush emptyBuf (fromLatin1 "hello")))
  /\ length (buf_data (bufPush emptyBuf (fromLatin1 "hello"))) = 32%nat.
Proof.
  split; [|reflexivity].
  apply (proj2 (proj2 (proj2 (bufPush_capacity
                                (bufPush emptyBuf (fromLatin1 "hello"))
                                (fromLatin1 "!"))))).
  vm_compute. lia.
Defined.

(* ------------------------------------------------------------------ *)
(** * Further properties: the connection wrapper *)

(** X4.  A socket event settles a pending read and empties the reader
    slot; without a pending read it settles nothing.  So a read is settled
    at most once, and no event leaves a reader registered. *)
Theorem event_settles_pending_read (ev : SockEvent) (conn : TCPConn) :
  reader (snd (deliver ev conn)) = false
  /\ (reader conn = true -> exists s, fst (deliver ev conn) = Some s)
  /\ (reader conn = false -> fst (deliver ev conn) = None).
Proof.
  destruct ev as [d| |e]; cbn [deliver]; unfold onData, onEnd, onError;
    destruct (reader conn) eqn:Hr; cbn [negb fst snd reader];
    repeat split; intros; try done; eauto.
Qed.

Lemma event_settles_pending_read_witness :
  exists s,
    fst (deliver EvEnd (snd (soRead (soInit idleSocket)))) = Some s.
Proof.
  apply (proj1 (proj2 (event_settles_pending_read EvEnd
                         (snd (soRead (soInit idleSocket)))))).
  reflexivity.
Defined.

Lemma pump_Done (evs : list SockEvent) (c c' : TCPConn) (d : Buffer) :
  pump evs c = (Done d, c') ->
  (d <> [] -> paused (socket c') = true /\ reader c' = false)
  /\ (dataNonEmpty evs -> d = [] -> ended c' = true).
Proof.
  revert c. induction evs as [|ev evs IH]; intros c; [done|].
  cbn [pump]. destruct (deliver ev c) as [[s|] c1] eqn:Ed.
  - destruct ev as [x| |e]; cbn [deliver] in Ed;
      unfold onData, onEnd, onError in Ed;
      destruct (reader c); cbn [negb] in Ed; try discriminate;
      injection Ed as <- <-; cbn [outcome_of_settled]; intros [= <- <-];
      cbn [socket paused set_incoming set_paused reader ended].
    + split; [done|]. intros Hne ->. apply Forall_cons in Hne as [Hne _].
      by destruct Hne.
    + done.
  - intros Hp. destruct (IH c1 Hp) as [H1 H2]. split; [done|].
    intros Hne. apply H2. by apply Forall_cons in Hne as [_ Hne].
Qed.

(** X5.  A read that returns a non-empty chunk leaves the socket paused
    and no reader registered, so nothing more is delivered until the next
    read; and, as long as no data event is empty, a read returns the empty
    chunk only once the clean end has been seen, after which every read
    returns the empty chunk. *)
Theorem read_pauses_delivery (conn c' : TCPConn) (d : Buffer) :
  awaitRead conn = (Done d, c') ->
  (d <> [] -> paused (socket c') = true /\ reader c' = false)
  /\ (dataNonEmpty (incoming (socket conn)) -> d = [] ->
      ended c' = true /\ awaitRead c' = (Done [], c')).
Proof.
  unfold awaitRead at 1, soRead.
  destruct (ended conn) eqn:He.
  - intros [= <- <-]. split; [done|]. intros _ _. split; [done|].
    unfold awaitRead, soRead. by rewrite He.
  - destruct (err conn) eqn:Hr; [done|]. intros Hp.
    destruct (pump_Done _ _ _ _ Hp) as [H1 H2]. split; [done|].
    intros Hne Hd. specialize (H2 Hne Hd). split; [done|].
    unfold awaitRead, soRead. by rewrite H2.
Qed.

Lemma read_pauses_delivery_witness :
  exists c',
    awaitRead (soInit (mkSocket true [EvData (fromLatin1 "abc"); EvEnd]
                                [] [] false))
    = (Done (fromLatin1 "abc"), c')
    /\ paused (socket c') = true /\ reader c' = false.
Proof.
  eexists. split; [reflexivity|].
  unshelve eapply (proj1 (read_pauses_delivery _ _ (fromLatin1 "abc") _)).
  - exact (soInit (mkSocket true [EvData (fromLatin1 "abc"); EvEnd]
                            [] [] false)).
  - reflexivity.
  - discriminate.
Defined.

(* ------------------------------------------------------------------ *)
(** * Further properties: body readers *)

Lemma readMany_mem_done (k : nat) (r : BodyReader) (w : World) data :
  w_cells w !! body_cell r = Some (MemCell data true) ->
  readMany k r w = (replicate k (Done []), w).
Proof.
  intros Hc. induction k as [|k IH]; [done|].
  cbn [readMany]. rewrite (readBody_mem_done _ _ _ Hc), IH. done.
Qed.

(** X6.  A memory reader declares the length of its data, hands the data
    out whole on the first read and the empty chunk on every later read,
    and never touches the connection or the buffer. *)
Theorem memory_reader_single_shot (data : Buffer) (w : World) (k : nat) :
  exists r w0 w',
    readerFromMemory data w = (Done r, w0)
    /\ body_length r = Z.of_nat (length data)
    /\ readMany (S k) r w0 = (Done data :: replicate k (Done []), w')
    /\ w_conn w' = w_conn w /\ w_buf w' = w_buf w.
Proof.
  set (r := mkBodyReader (Z.of_nat (length data)) (length (w_cells w))).
  set (w0 := mkWorld (w_conn w) (w_buf w) (w_cells w ++ [MemCell data false])).
  assert (Hc : w_cells w0 !! body_cell r = Some (MemCell data false)).
  { unfold w0, r. cbn [w_cells body_cell]. by rewrite lookup_app_r, Nat.sub_diag. }
  exists r, w0. eexists. split; [reflexivity|]. split; [reflexivity|].
  cbn [readMany]. rewrite (readBody_mem_first _ _ _ Hc).
  rewrite (readMany_mem_done k r _ data); [done|].
  cbn [w_cells]. apply list_lookup_insert_eq. by eapply lookup_lt_Some.
Qed.



(* ------------------------------------------------------------------ *)
(** * Further properties: the serve loop at the end of the stream *)

Lemma io_cutMessage_eq (w : World) :
  io_cutMessage w
  = match cutMessage (w_buf w) with
    | Ok (m, b) => (Done m, mkWorld (w_conn w) b (w_cells w))
    | Throw e => (Raise e, w)
    end.
Proof.
  unfold io_cutMessage. unfold_io.
  by destruct (cutMessage (w_buf w)) as [[m b]|e].
Qed.

(** X8.  When no complete header block is buffered and the read returns
    the empty chunk, the loop returns normally if the buffer is empty and
    throws 400 Unexpected EOF if it holds the start of a request; in both
    cases it writes nothing. *)
Theorem serveLoop_end_of_stream (fuel : nat) (w : World) (c : TCPConn) :
  ~ contains (occupied (w_buf w)) terminator ->
  (buf_length (w_buf w) < kMaxHeaderLen)%nat ->
  awaitRead (w_conn w) = (Done [], c) ->
  exists w',
    serveLoop (S fuel) w
    = (if (buf_length (w_buf w) =? 0)%nat then Done tt
       else Raise (HTTPError 400 "Unexpected EOF"), w')
    /\ wire w' = wire w
    /\ w_cells w' = w_cells w.
Proof.
  intros Hno Hlen Hread.
  assert (Hcut : cutMessage (w_buf w) = Ok (None, w_buf w)).
  { unfold cutMessage. fold terminator.
    destruct (Z.ltb_spec (indexOf (occupied (w_buf w)) terminator) 0) as [|Hi].
    - destruct (Nat.leb_spec kMaxHeaderLen (buf_length (w_buf w))); [lia|done].
    - exfalso. apply indexOf_neg in Hno. lia. }
  pose proof (awaitRead_socket_out (w_conn w)) as [Hw _].
  rewrite Hread in Hw. cbn [snd] in Hw.
  eexists. split.
  - cbn [serveLoop]. unfold bind at 1. rewrite io_cutMessage_eq, Hcut.
    unfold_io. rewrite Hread. io_simpl.
    rewrite bufPush_length. cbn [length Nat.eqb andb]. rewrite Nat.add_0_r.
    destruct (buf_length (w_buf w) =? 0)%nat; reflexivity.
  - split; [|by destruct (buf_length (w_buf w) =? 0)%nat].
    unfold wire. by destruct (buf_length (w_buf w) =? 0)%nat.
Qed.

Lemma serveLoop_end_of_stream_witness :
  exists w',
    serveLoop 1 (bufferedWorld (fromLatin1 "GET /") [EvEnd])
    = (Raise (HTTPError 400 "Unexpected EOF"), w')
    /\ wire w' = [].
Proof.
  edestruct (serveLoop_end_of_stream 0
               (bufferedWorld (fromLatin1 "GET /") [EvEnd]))
    as (w' & H1 & H2 & _).
  - apply indexOf_neg. vm_compute. reflexivity.
  - vm_compute. lia.
  - reflexivity.
  - exists w'. split; [exact H1|exact H2].
Defined.

(* ------------------------------------------------------------------ *)
(** * Further properties: the connection handler *)

Lemma destroy_spec (w : World) :
  exists w', destroy w = (Done tt, w')
             /\ destroyed (socket (w_conn w')) = true /\ wire w' = wire w.
Proof. eexists. split; [reflexivity|]. done. Qed.

(** X9.  [newConn] never lets an exception escape, and whenever it
    returns the socket has been destroyed. *)
Theorem newConn_always_destroys (fuel : nat) (w : World) :
  match newConn fuel w with
  | (Done _, w') => destroyed (socket (w_conn w')) = true
  | (Raise _, _) => False
  | _ => True
  end.
Proof.
  unfold newConn.
  destruct (serveClient fuel _) as [[[]|[c msg|msg]| |] w1]; try done.
  destruct ((let* b := _ in _) w1) as [[[]|e| |] w2]; done.
Qed.

Lemma io_soWrite_writesOk (d : Buffer) (w : World) :
  writesOk w ->
  exists w',
    io_soWrite d w = (Done tt, w')
    /\ writesOk w' /\ wire w' = wire w ++ [d]
    /\ w_cells w' = w_cells w /\ w_buf w' = w_buf w.
Proof.
  unfold writesOk, io_soWrite, soWrite, wire. intros Hok.
  destruct (write_results (socket (w_conn w))) as [|[e|] rest] eqn:E.
  - eexists. split; [reflexivity|]. cbn. rewrite ?E. done.
  - apply Forall_cons in Hok as [[=] _].
  - eexists. split; [reflexivity|]. cbn. rewrite ?E. cbn.
    by apply Forall_cons in Hok as [_ Hok].
Qed.

Lemma fromLatin1_line_nonempty (msg : string) : fromLatin1 (msg +:+ NL) <> [].
Proof.
  intros H. apply (f_equal toLatin1) in H.
  rewrite toLatin1_fromLatin1 in H. by destruct msg.
Qed.

(** X10.  When the serve loop fails with an HTTP error and the writes go
    through, [newConn] sends one response, made of a header block with the
    error's status code, the fixed reason OK and the length of the message
    plus one, and of the message followed by a line feed, and then destroys
    the socket; after any other exception it writes nothing. *)
Theorem newConn_error_response (fuel : nat) (w w1 : World) (e : JsExn) :
  serveClient fuel
    (mkWorld (soInit (socket (w_conn w))) (w_buf w) (w_cells w))
  = (Raise e, w1) ->
  writesOk w1 -> (2 <= fuel)%nat ->
  exists w',
    newConn fuel w = (Done tt, w')
    /\ destroyed (socket (w_conn w')) = true
    /\ wire w'
       = wire w1 ++
         match e with
         | HTTPError c msg =>
             [fromLatin1
                ("HTTP/1.1 " +:+ number_to_string c +:+ " OK" +:+ CRLF
                 +:+ "Content-Length: "
                 +:+ number_to_string
                       (Z.of_nat (length (fromLatin1 (msg +:+ NL))))
                 +:+ CRLF +:+ CRLF);
              fromLatin1 (msg +:+ NL)]
         | JsError _ => []
         end.
Proof.
  intros Hserve Hok Hfuel. unfold newConn. rewrite Hserve.
  destruct e as [c msg|m].
  2:{ eexists. split; [reflexivity|]. split; [done|]. by rewrite app_nil_r. }
  set (data := fromLatin1 (msg +:+ NL)).
  set (r := mkBodyReader (Z.of_nat (length data)) (length (w_cells w1))).
  set (wa := mkWorld (w_conn w1) (w_buf w1) (w_cells w1 ++ [MemCell data false])).
  set (res := mkHTTPRes c [] r).
  assert (Hrun : exists wd,
    io_writeHTTPResp fuel res wa = (Done tt, wd)
    /\ wire wd = wire w1 ++ [encodeHTTPResp (withContentLength res); data]).
  { unfold io_writeHTTPResp.
    rewrite writeHTTPResp_nonneg by (cbn; lia). unfold bind.
    destruct (io_soWrite_writesOk (encodeHTTPResp (withContentLength res)) wa)
      as (wb & -> & Hokb & Hwb & Hcb & _); [exact Hok|].
    destruct fuel as [|[|f]]; [lia..|].
    assert (Hc : w_cells wb !! body_cell (body res) = Some (MemCell data false)).
    { rewrite Hcb. cbn. by rewrite lookup_app_r, Nat.sub_diag. }
    rewrite writeBody_S, (readBody_mem_first _ _ _ Hc).
    destruct (Nat.eqb_spec (length data) 0) as [Hz|_].
    { destruct data eqn:Ed; [|done]. by destruct (fromLatin1_line_nonempty msg). }
    set (wc := mkWorld _ _ _).
    destruct (io_soWrite_writesOk data wc) as (wd & -> & _ & Hwd & Hcd & _);
      [exact Hokb|].
    assert (Hc2 : w_cells wd !! body_cell (body res) = Some (MemCell data true)).
    { rewrite Hcd. unfold wc. cbn [w_cells].
      apply list_lookup_insert_eq. by eapply lookup_lt_Some. }
    rewrite writeBody_S, (readBody_mem_done _ _ _ Hc2).
    exists wd. split; [done|]. rewrite Hwd. unfold wc, wire at 1. cbn [w_conn].
    fold (wire wb). rewrite Hwb. by rewrite <-app_assoc. }
  destruct Hrun as (wd & Hrun & Hwire).
  assert (Hfold : (let* b := readerFromMemory data in
                   io_writeHTTPResp fuel (mkHTTPRes c [] b)) w1
                  = io_writeHTTPResp fuel res wa) by reflexivity.
  rewrite Hfold, Hrun. destruct (destroy_spec wd) as (w' & -> & Hd & Hw').
  exists w'. split; [done|]. split; [done|].
  rewrite Hw', Hwire. f_equal. f_equal.
  rewrite encodeHTTPResp_layout.
  unfold res, r, withContentLength, contentLengthLine.
  cbn [code res_headers body body_length app fmap list_fmap foldr].
  by rewrite toLatin1_fromLatin1.
Qed.

Lemma newConn_error_response_witness :
  exists w',
    newConn 3 (freshWorld [EvData (fromLatin1 ("GET /index.html" +:+ CRLFCRLF))])
    = (Done tt, w')
    /\ wire w'
       = [fromLatin1 ("HTTP/1.1 400 OK" +:+ CRLF +:+ "Content-Length: 17"
                      +:+ CRLF +:+ CRLF);
          fromLatin1 ("Bad request line" +:+ NL)].
Proof.
  edestruct (newConn_error_response 3
               (freshWorld
                  [EvData (fromLatin1 ("GET /index.html" +:+ CRLFCRLF))]))
    as (w' & H1 & _ & H2).
  - vm_compute. reflexivity.
  - apply Forall_nil_2.
  - lia.
  - exists w'. split; [exact H1|]. rewrite H2. reflexivity.
Defined.

(* ------------------------------------------------------------------ *)
(** * Further properties: body bytes and the declared length *)

Lemma io_soWrite_buf d w : w_buf (snd (io_soWrite d w)) = w_buf w.
Proof.
  unfold io_soWrite, soWrite.
  by destruct (write_results (socket (w_conn w))) as [|[e|] rest].
Qed.

(** On a well-formed buffer a successful read takes exactly the bytes it
    returns off what is owed, and returns the empty chunk only when nothing
    is owed. *)
Lemma readConn_step_exact (a : nat) (rem : Z) (w w' : World) (d : Buffer) :
  buf_wf (w_buf w) -> 0 <= rem ->
  w_cells w !! a = Some (ConnCell rem) ->
  readConn a rem w = (Done d, w') ->
  buf_wf (w_buf w')
  /\ w_cells w' !! a = Some (ConnCell (rem - Z.of_nat (length d)))
  /\ Z.of_nat (length d) <= rem
  /\ (d = [] -> rem = 0).
Proof.
  intros Hwf Hrem Hcell. unfold readConn.
  assert (Ha : (a < length (w_cells w))%nat) by (by eapply lookup_lt_Some).
  destruct (Z.eqb_spec rem 0) as [->|Hnz].
  { intros [= <- <-]. simpl. by rewrite Hcell. }
  assert (Hfin : forall b : DynBuf,
    buf_wf b -> buf_length b <> 0%nat ->
    let consume := Z.min (Z.of_nat (buf_length b)) rem in
    let d := subarray (buf_data b) 0 consume in
    buf_wf (bufPop b consume)
    /\ <[a:=ConnCell (rem - consume)]> (w_cells w) !! a
       = Some (ConnCell (rem - Z.of_nat (length d)))
    /\ Z.of_nat (length d) <= rem /\ (d = [] -> rem = 0)).
  { intros b Hb Hlen consume d0. unfold buf_wf in Hb.
    assert (Hd : Z.of_nat (length d0) = consume).
    { unfold d0. replace consume with (Z.of_nat (Z.to_nat consume)) at 1 by lia.
      rewrite subarray_prefix, length_take. lia. }
    split; [|split; [|split]].
    - replace consume with (Z.of_nat (Z.to_nat consume)) by lia.
      by apply bufPop_wf.
    - rewrite list_lookup_insert_eq by done. by rewrite Hd.
    - lia.
    - intros E. rewrite E in Hd. simpl in Hd. lia. }
  unfold_io.
  destruct (Nat.eqb_spec (buf_length (w_buf w)) 0) as [Hzero|Hnz'].
  - destruct (awaitRead (w_conn w)) as [[x|e| |] c] eqn:Er; io_simpl;
      try discriminate.
    destruct (Nat.eqb_spec (length x) 0); io_simpl; [discriminate|].
    intros [= <- <-]. io_simpl.
    apply (Hfin (bufPush (w_buf w) x)); [apply bufPush_wf|].
    rewrite bufPush_length. lia.
  - io_simpl. intros [= <- <-]. io_simpl. by apply (Hfin (w_buf w)).
Qed.

Lemma writeBody_conn_exact (fuel : nat) (r : BodyReader) (w w' : World)
      (rem : Z) :
  buf_wf (w_buf w) -> 0 <= rem ->
  w_cells w !! body_cell r = Some (ConnCell rem) ->
  writeBody fuel r w = (Done tt, w') ->
  exists cs, wire w' = wire w ++ cs
             /\ Z.of_nat (length (concat cs)) = rem.
Proof.
  revert w rem. induction fuel as [|fuel IH]; intros w rem Hwf Hrem Hcell;
    [done|].
  rewrite writeBody_S.
  pose proof (readBody_socket_out r w) as [Hwire _].
  destruct (readBody r w) as [[d|e| |] w1] eqn:Er; try done.
  rewrite (readBody_conn _ _ _ Hcell) in Er.
  destruct (readConn_step_exact _ _ _ _ _ Hwf Hrem Hcell Er)
    as (Hwf1 & Hc1 & Hle & Hnil).
  cbn [snd] in Hwire.
  destruct (Nat.eqb_spec (length d) 0) as [Hz|Hnz].
  - intros [= <-]. exists []. rewrite app_nil_r. split; [done|].
    destruct d; [|done]. simpl. by rewrite Hnil.
  - pose proof (io_soWrite_wire d w1) as Hd.
    pose proof (io_soWrite_cells d w1) as Hcells.
    pose proof (io_soWrite_buf d w1) as Hbuf.
    destruct (io_soWrite d w1) as [[[]|e| |] w2]; try done.
    cbn [snd] in *. destruct Hd as [Hd _]. intros Hrun.
    destruct (IH w2 (rem - Z.of_nat (length d))) as (cs & Hcs & Hlen);
      [by rewrite Hbuf|lia|by rewrite Hcells|done|].
    exists (d :: cs). split.
    + by rewrite Hcs, Hd, Hwire, <-app_assoc.
    + cbn [concat]. rewrite length_app. lia.
Qed.

Lemma writeBody_mem_exact (fuel : nat) (r : BodyReader) (w w' : World) data :
  w_cells w !! body_cell r = Some (MemCell data false) ->
  writeBody fuel r w = (Done tt, w') ->
  exists cs, wire w' = wire w ++ cs /\ concat cs = data.
Proof.
  intros Hcell. destruct fuel as [|fuel]; [done|].
  assert (Ha : (body_cell r < length (w_cells w))%nat)
    by (by eapply lookup_lt_Some).
  rewrite writeBody_S, (readBody_mem_first _ _ _ Hcell).
  destruct (Nat.eqb_spec (length data) 0) as [Hz|Hnz].
  { intros [= <-]. exists []. rewrite app_nil_r. split; [done|].
    by destruct data. }
  set (w1 := mkWorld _ _ _).
  pose proof (io_soWrite_wire data w1) as Hd.
  pose proof (io_soWrite_cells data w1) as Hcells.
  destruct (io_soWrite data w1) as [[[]|e| |] w2]; try done.
  cbn [snd] in *. destruct Hd as [Hd _].
  assert (Hc2 : w_cells w2 !! body_cell r = Some (MemCell data true)).
  { rewrite Hcells. unfold w1. cbn [w_cells]. by rewrite list_lookup_insert_eq. }
  destruct fuel as [|fuel]; [done|].
  rewrite writeBody_S, (readBody_mem_done _ _ _ Hc2).
  intros [= <-]. exists [data]. split; [|simpl; by rewrite app_nil_r].
  rewrite Hd. done.
Qed.

Lemma readerFromReq_buf msg w :
  w_buf (snd (readerFromReq msg w)) = w_buf w.
Proof.
  unfold readerFromReq.
  destruct (negb (negb _)); [done|].
  destruct (fieldGet (headers msg) "Content-Length") as [v|].
  - by destruct (parseInt (toLatin1 v)).
  - by destruct (is_chunked _).
Qed.

Lemma readerFromReq_exact msg w rb w' :
  readerFromReq msg w = (Done rb, w') -> readerExact rb w'.
Proof.
  assert (Hmem : forall d,
    readerFromMemory d w = (Done rb, w') -> readerExact rb w').
  { intros d [= <- <-]. unfold readerExact.
    cbn [w_cells body_cell body_length]. right. exists d.
    by rewrite lookup_app_r, Nat.sub_diag. }
  unfold readerFromReq.
  destruct (negb (negb _)); [apply Hmem|].
  destruct (fieldGet (headers msg) "Content-Length") as [v|].
  - destruct (parseInt (toLatin1 v)) as [n|]; [|done].
    intros [= <- <-]. unfold readerExact.
    cbn [w_cells body_cell body_length]. left.
    by rewrite lookup_app_r, Nat.sub_diag.
  - destruct (is_chunked _); apply Hmem.
Qed.

Lemma handleReq_exact msg rb w res w' :
  readerExact rb w -> handleReq msg rb w = (Done res, w') ->
  readerExact (body res) w'
  /\ code res = 200
  /\ res_headers res = [fromLatin1 "Server: my_first_http_server"]
  /\ wire w' = wire w /\ w_buf w' = w_buf w.
Proof.
  intros Hex. unfold handleReq.
  destruct (String.eqb _ "/echo").
  - by intros [= <- <-].
  - intros [= <- <-]. split; [|done].
    unfold readerExact. right. eexists. simpl.
    by rewrite lookup_app_r, Nat.sub_diag.
Qed.

(** X11.  Whenever one pass of the serve loop over a well-formed buffer
    writes its response to the end, the Content-Length it announced is the
    number of body bytes it wrote: the wire holds the header block (status
    200, the Server line, the Content-Length line) and then body chunks of
    exactly that total length. *)
Theorem response_length_matches_body (fuel : nat) (msg : HTTPReq)
        (w w' : World) :
  buf_wf (w_buf w) ->
  serveOnce fuel msg w = (Done tt, w') ->
  exists cs,
    wire w'
    = wire w ++
      fromLatin1
        ("HTTP/1.1 200 OK" +:+ CRLF +:+ "Server: my_first_http_server" +:+ CRLF
         +:+ "Content-Length: "
         +:+ number_to_string (Z.of_nat (length (concat cs)))
         +:+ CRLF +:+ CRLF) :: cs.
Proof.
  intros Hwf. unfold serveOnce, bind.
  pose proof (readerFromReq_conn msg w) as Hconn.
  destruct (readerFromReq msg w) as [[rb|e| |] wa] eqn:Er; try done.
  assert (Hbuf : w_buf wa = w_buf w).
  { pose proof (readerFromReq_buf msg w) as H. by rewrite Er in H. }
  apply readerFromReq_exact in Er.
  destruct (handleReq msg rb wa) as [[res|e| |] wb] eqn:Eh; try done.
  destruct (handleReq_exact _ _ _ _ _ Er Eh) as (Hex & Hcode & Hhs & Hwire & Hb).
  unfold io_writeHTTPResp.
  destruct (Z.ltb_spec (body_length (body res)) 0) as [Hneg|Hpos].
  { by rewrite writeHTTPResp_negative. }
  rewrite writeHTTPResp_nonneg by done. unfold bind.
  pose proof (io_soWrite_wire (encodeHTTPResp (withContentLength res)) wb) as Hd.
  pose proof (io_soWrite_cells (encodeHTTPResp (withContentLength res)) wb)
    as Hcells.
  pose proof (io_soWrite_buf (encodeHTTPResp (withContentLength res)) wb)
    as Hbuf'.
  destruct (io_soWrite _ wb) as [[[]|e| |] wc]; try done.
  cbn [snd] in *. destruct Hd as [Hd _].
  destruct (writeBody fuel (body res) wc) as [o wd] eqn:Eb.
  intros [= -> <-].
  assert (Hbody : exists cs, wire wd = wire wc ++ cs
                  /\ Z.of_nat (length (concat cs)) = body_length (body res)).
  { destruct Hex as [Hc|(data & Hc & Hlen)]; rewrite <-Hcells in Hc.
    - eapply writeBody_conn_exact; [|done|exact Hc|exact Eb].
      by rewrite Hbuf', Hb, Hbuf.
    - destruct (writeBody_mem_exact _ _ _ _ _ Hc Eb) as (cs & Hcs & Hcat).
      exists cs. split; [done|]. by rewrite Hcat. }
  destruct Hbody as (cs & Hcs & Hlen). exists cs.
  rewrite Hcs, Hd, Hwire. unfold wire at 1. cbn [snd] in Hconn.
  rewrite Hconn. fold (wire w). rewrite <-app_assoc. f_equal. cbn [app].
  f_equal. rewrite encodeHTTPResp_layout.
  unfold withContentLength, contentLengthLine.
  cbn [code res_headers body]. rewrite Hcode, Hhs, Hlen.
  cbn [app fmap list_fmap foldr]. by rewrite !toLatin1_fromLatin1.
Qed.

Lemma response_length_matches_body_witness :
  exists w' cs,
    serveOnce 3 (mkHTTPReq "POST" (fromLatin1 "/echo") "1.1"
                           [fromLatin1 "Content-Length: 5"])
              (bufferedWorld (fromLatin1 "hello") [])
    = (Done tt, w')
    /\ wire w'
       = fromLatin1
           ("HTTP/1.1 200 OK" +:+ CRLF +:+ "Server: my_first_http_server"
            +:+ CRLF +:+ "Content-Length: "
            +:+ number_to_string (Z.of_nat (length (concat cs)))
            +:+ CRLF +:+ CRLF) :: cs.
Proof.
  eexists.
  edestruct (response_length_matches_body 3
               (mkHTTPReq "POST" (fromLatin1 "/echo") "1.1"
                          [fromLatin1 "Content-Length: 5"])
               (bufferedWorld (fromLatin1 "hello") []))
    as (cs & Hcs).
  - apply bufPush_wf.
  - vm_compute. reflexivity.
  - exists cs. split; [reflexivity|]. exact Hcs.
Defined.

(** X12.  When the whole declared body is already in a well-formed buffer,
    draining the reader removes exactly those bytes and reads nothing from
    the connection: what followed the body is now at the front of the
    buffer. *)
Theorem buffered_body_drained (fuel : nat) (r : BodyReader) (w : World)
        (rem : Z) :
  buf_wf (w_buf w) ->
  w_cells w !! body_cell r = Some (ConnCell rem) ->
  0 < rem -> rem <= Z.of_nat (buf_length (w_buf w)) -> (2 <= fuel)%nat ->
  exists w',
    drainBody fuel r w = (Done tt, w')
    /\ occupied (w_buf w') = drop (Z.to_nat rem) (occupied (w_buf w))
    /\ w_conn w' = w_conn w
    /\ w_cells w' !! body_cell r = Some (ConnCell 0).
Proof.
  intros Hwf Hcell Hrem Hlen Hfuel.
  destruct fuel as [|[|fuel]]; [lia..|].
  assert (Ha : (body_cell r < length (w_cells w))%nat)
    by (by eapply lookup_lt_Some).
  assert (Hmin : Z.min (Z.of_nat (buf_length (w_buf w))) rem = rem) by lia.
  eexists. split.
  - cbn [drainBody]. unfold bind at 1.
    rewrite (readBody_conn _ _ _ Hcell).
    rewrite readConn_buffer_first by (done || lia). rewrite Hmin.
    rewrite occupied_take, take_take, length_take.
    replace (Nat.min (Nat.min (Z.to_nat rem) (buf_length (w_buf w)))
                     (length (buf_data (w_buf w))))
      with (Z.to_nat rem) by (unfold buf_wf in Hwf; lia).
    destruct (Nat.ltb_spec 0 (Z.to_nat rem)); [|lia].
    unfold bind. unfold readBody at 1. cbn [w_cells].
    rewrite list_lookup_insert_eq by done.
    replace (rem - rem) with 0 by lia. reflexivity.
  - cbn [w_buf w_conn w_cells]. split; [|split; [done|]].
    + replace rem with (Z.of_nat (Z.to_nat rem)) at 1 by lia.
      apply bufPop_occupied; [done|lia].
    + rewrite list_lookup_insert_eq by done.
      by replace (rem - rem) with 0 by lia.
Qed.

Lemma buffered_body_drained_witness :
  exists w',
    drainBody 2 (mkBodyReader 5 0)
      (mkWorld (soInit idleSocket)
               (bufPush emptyBuf (fromLatin1 "helloGET / HTTP/1.1"))
               [ConnCell 5])
    = (Done tt, w')
    /\ occupied (w_buf w') = fromLatin1 "GET / HTTP/1.1".
Proof.
  edestruct (buffered_body_drained 2 (mkBodyReader 5 0)
               (mkWorld (soInit idleSocket)
                        (bufPush emptyBuf (fromLatin1 "helloGET / HTTP/1.1"))
                        [ConnCell 5]) 5)
    as (w' & H1 & H2 & _).
  - apply bufPush_wf.
  - reflexivity.
  - lia.
  - vm_compute. discriminate.
  - lia.
  - exists w'. split; [exact H1|]. rewrite H2. reflexivity.
Defined.

(* ------------------------------------------------------------------ *)
(** * Further properties: lines, tokens and fields *)

Lemma append_assoc (a b c : string) : (a +:+ b) +:+ c = a +:+ b +:+ c.
Proof. induction a; [done|]. rewrite !append_cons. by f_equal. Qed.

Lemma append_length (a b : string) :
  String.length (a +:+ b) = (String.length a + String.length b)%nat.
Proof. induction a; [done|]. rewrite append_cons. simpl. by f_equal. Qed.

Lemma lacks_cons (c a : ascii) (s : string) :
  lacks c (String a s) <-> a <> c /\ lacks c s.
Proof.
  unfold lacks. cbn [index_of_char].
  destruct (Ascii.eqb_spec a c) as [->|Hne].
  - split; [done|]. by intros [[] _].
  - destruct (index_of_char c s); simpl; split; try done; by intros [_ ?].
Qed.

Lemma lacks_app (c : ascii) (a b : string) :
  lacks c (a +:+ b) <-> lacks c a /\ lacks c b.
Proof.
  induction a as [|x a IH].
  - split; [done|by intros [_ ?]].
  - rewrite append_cons, !lacks_cons, IH. tauto.
Qed.

Lemma split_on_crlf_cons2 (a b : ascii) (s : string) :
  split_on_crlf (String a (String b s))
  = if Ascii.eqb a CR && Ascii.eqb b LF then EmptyString :: split_on_crlf s
    else match split_on_crlf (String b s) with
         | [] => [String a EmptyString]
         | t :: ts => String a t :: ts
         end.
Proof. reflexivity. Qed.

Lemma concat_cons_char (sep : string) (a : ascii) (t : string)
      (ts : list string) :
  String.concat sep (String a t :: ts) = String a (String.concat sep (t :: ts)).
Proof. by destruct ts. Qed.

Lemma split_on_crlf_join_upto (n : nat) (s : string) :
  (String.length s <= n)%nat -> String.concat CRLF (split_on_crlf s) = s.
Proof.
  revert s. induction n as [|n IH]; intros s Hlen.
  - destruct s; [done|simpl in Hlen; lia].
  - destruct s as [|a [|b s]]; [done..|].
    rewrite split_on_crlf_cons2.
    destruct (Ascii.eqb_spec a CR) as [->|Ha];
      [destruct (Ascii.eqb_spec b LF) as [->|Hb]|]; cbn [andb].
    + pose proof (split_on_crlf_nonempty s) as Hne.
      pose proof (IH s ltac:(simpl in *; lia)) as Hs.
      destruct (split_on_crlf s) as [|t ts] eqn:E; [done|].
      change (String.concat CRLF (EmptyString :: t :: ts))
        with (CRLF +:+ String.concat CRLF (t :: ts)).
      by rewrite Hs.
    + pose proof (split_on_crlf_nonempty (String b s)) as Hne.
      pose proof (IH (String b s) ltac:(simpl in *; lia)) as Hs.
      destruct (split_on_crlf (String b s)) as [|t ts]; [done|].
      by rewrite concat_cons_char, Hs.
    + pose proof (split_on_crlf_nonempty (String b s)) as Hne.
      pose proof (IH (String b s) ltac:(simpl in *; lia)) as Hs.
      destruct (split_on_crlf (String b s)) as [|t ts]; [done|].
      by rewrite concat_cons_char, Hs.
Qed.

Lemma fmap_toLatin1_fromLatin1 (l : list string) :
  toLatin1 <$> (fromLatin1 <$> l) = l.
Proof.
  induction l as [|x l IH]; [done|].
  cbn [fmap list_fmap] in *. by rewrite toLatin1_fromLatin1, IH.
Qed.

Lemma fmap_fromLatin1_toLatin1 (l : list Buffer) :
  fromLatin1 <$> (toLatin1 <$> l) = l.
Proof.
  induction l as [|x l IH]; [done|].
  cbn [fmap list_fmap] in *. by rewrite fromLatin1_toLatin1, IH.
Qed.

(** X13.  Joining the lines of [splitLines] with CRLF gives back the
    bytes: the split loses nothing and adds nothing. *)
Theorem splitLines_join (data : Buffer) :
  fromLatin1 (String.concat CRLF (toLatin1 <$> splitLines data)) = data.
Proof.
  unfold splitLines.
  rewrite fmap_toLatin1_fromLatin1, (split_on_crlf_join_upto _ _ (Nat.le_refl _)).
  apply fromLatin1_toLatin1.
Qed.

(** A line without line feed, closed by CRLF, is the first line. *)
Lemma split_on_crlf_line (l rest : string) :
  lacks LF l ->
  split_on_crlf (l +:+ CRLF +:+ rest) = l :: split_on_crlf rest.
Proof.
  induction l as [|a l IH]; intros Hl; [reflexivity|].
  apply lacks_cons in Hl as [Ha Hl]. rewrite append_cons.
  assert (Hnext : exists b s, l +:+ CRLF +:+ rest = String b s /\ b <> LF).
  { destruct l as [|b l]; [by eexists _, _|].
    apply lacks_cons in Hl as [Hb _]. by eexists _, _. }
  destruct Hnext as (b & s & Es & Hb).
  rewrite Es, split_on_crlf_cons2, <-Es, (IH Hl).
  destruct (Ascii.eqb_spec b LF); [done|]. by rewrite andb_false_r.
Qed.

Lemma split_on_crlf_block (hs : list string) :
  Forall (lacks LF) hs ->
  split_on_crlf (foldr (fun h acc => h +:+ CRLF +:+ acc) CRLF hs)
  = hs ++ [EmptyString; EmptyString].
Proof.
  induction 1 as [|h hs Hh Hhs IH]; [reflexivity|].
  cbn [foldr app]. by rewrite split_on_crlf_line, IH.
Qed.

Lemma split_on_char_whole (c : ascii) (s : string) :
  lacks c s -> split_on_char c s = [s].
Proof.
  induction s as [|a s IH]; intros Hs; [done|].
  apply lacks_cons in Hs as [Ha Hs]. cbn [split_on_char].
  destruct (Ascii.eqb_spec a c); [done|]. by rewrite IH.
Qed.

Lemma split_on_char_token (c : ascii) (t rest : string) :
  lacks c t ->
  split_on_char c (t +:+ String c rest) = t :: split_on_char c rest.
Proof.
  induction t as [|a t IH]; intros Ht.
  - change ("" +:+ String c rest) with (String c rest).
    cbn [split_on_char]. by rewrite Ascii.eqb_refl.
  - apply lacks_cons in Ht as [Ha Ht]. rewrite append_cons.
    cbn [split_on_char]. destruct (Ascii.eqb_spec a c); [done|].
    by rewrite IH.
Qed.

Lemma index_of_char_app (c : ascii) (t rest : string) :
  lacks c t ->
  index_of_char c (t +:+ String c rest) = Some (String.length t).
Proof.
  induction t as [|a t IH]; intros Ht.
  - change ("" +:+ String c rest) with (String c rest).
    cbn [index_of_char]. by rewrite Ascii.eqb_refl.
  - apply lacks_cons in Ht as [Ha Ht]. rewrite append_cons.
    cbn [index_of_char]. destruct (Ascii.eqb_spec a c); [done|].
    by rewrite IH.
Qed.

Lemma substring_prefix (t rest : string) :
  String.substring 0 (String.length t) (t +:+ rest) = t.
Proof.
  induction t as [|a t IH]; [by destruct rest|].
  rewrite append_cons. simpl. by rewrite IH.
Qed.

Lemma substring_whole (s : string) :
  String.substring 0 (String.length s) s = s.
Proof. induction s as [|a s IH]; [done|]. simpl. by rewrite IH. Qed.

Lemma substring_skip (t rest : string) (m : nat) :
  String.substring (String.length t) m (t +:+ rest)
  = String.substring 0 m rest.
Proof. induction t as [|a t IH]; [done|]. rewrite append_cons. simpl. exact IH. Qed.

Lemma fieldGet_case (hs : list Buffer) (k1 k2 : string) :
  toLowerCase k1 = toLowerCase k2 -> fieldGet hs k1 = fieldGet hs k2.
Proof.
  intros Hk. induction hs as [|h hs IH]; [done|].
  cbn [fieldGet]. rewrite Hk, IH. done.
Qed.

(** X14.  Field lookup reads a header line as the name before the first
    colon and the value after it, both trimmed: if the first line is
    [name:value] and the name matches the key up to letter case, the result
    is the trimmed value, and otherwise the search goes on in the
    following lines; a line without colon is skipped and the empty list
    gives nothing.  Keys that differ only in letter case give the same
    result. *)
Theorem fieldGet_first_match (name value : string) (hs : list Buffer)
        (key : string) :
  lacks ":" name ->
  fieldGet (fromLatin1 (name +:+ ":" +:+ value) :: hs) key
  = (if String.eqb (toLowerCase (trim name)) (toLowerCase key)
     then Some (fromLatin1 (trim value))
     else fieldGet hs key)
  /\ fieldGet (fromLatin1 name :: hs) key = fieldGet hs key
  /\ fieldGet [] key = None
  /\ fieldGet hs (toLowerCase key) = fieldGet hs key.
Proof.
  intros Hname. split; [|split; [|split]].
  - cbn [fieldGet]. rewrite toLatin1_fromLatin1.
    change (":" +:+ value) with (String ":" value).
    rewrite (index_of_char_app _ _ _ Hname).
    unfold slice, slice_from. rewrite Nat.sub_0_r, substring_prefix.
    replace (name +:+ String ":" value) with ((name +:+ ":") +:+ value)
      by (by rewrite append_assoc).
    replace (String.length name + 1)%nat with (String.length (name +:+ ":"))
      by (by rewrite append_length).
    rewrite substring_skip, append_length, Nat.add_comm, Nat.add_sub.
    by rewrite substring_whole.
  - cbn [fieldGet]. rewrite toLatin1_fromLatin1.
    unfold lacks in Hname. by rewrite Hname.
  - done.
  - apply fieldGet_case. clear. induction key as [|a key IH]; [done|].
    cbn [toLowerCase]. f_equal; [|done].
    destruct a as [[] [] [] [] [] [] [] []]; reflexivity.
Qed.

Lemma fieldGet_first_match_witness :
  fieldGet [fromLatin1 "Host: a"; fromLatin1 "content-LENGTH:  42 "]
           "Content-Length"
  = Some (fromLatin1 "42").
Proof.
  rewrite (proj1 (fieldGet_first_match "Host" " a" _ _ eq_refl)).
  cbn [String.eqb]. 
  assert (E : String.eqb (toLowerCase (trim "Host"))
                         (toLowerCase "Content-Length") = false)
    by reflexivity.
  rewrite E.
  rewrite (proj1 (fieldGet_first_match "content-LENGTH" "  42 " _ _ eq_refl)).
  reflexivity.
Defined.

(* ------------------------------------------------------------------ *)
(** * Further properties: round trips through the wire format *)

Lemma collectHeaders_block (hs : list Buffer) :
  Forall (fun h => h <> [] /\ colon ∈ h) hs ->
  collectHeaders (hs ++ [[]]) = Ok hs.
Proof.
  induction 1 as [|h hs [Hne Hin] Hhs IH]; [done|].
  cbn [app collectHeaders]. destruct h as [|b h]; [done|].
  cbn [length Nat.eqb]. unfold validateHeader. cbn [length Nat.eqb].
  rewrite bool_decide_eq_true_2 by done. cbn [negb]. by rewrite IH.
Qed.

Lemma parseRequestLine_tokens_ok (m : string) (u : Buffer) (v : string) :
  lacks " " m -> lacks " " (toLatin1 u) -> lacks " " v -> lacks "/" v ->
  v <> EmptyString ->
  parseRequestLine (fromLatin1 (m +:+ " " +:+ toLatin1 u +:+ " HTTP/" +:+ v))
  = Ok (m, u, v).
Proof.
  intros Hm Hu Hv Hslash Hne. unfold parseRequestLine.
  rewrite toLatin1_fromLatin1.
  change (" " +:+ toLatin1 u +:+ " HTTP/" +:+ v)
    with (String " " (toLatin1 u +:+ String " " ("HTTP/" +:+ v))).
  rewrite (split_on_char_token _ _ _ Hm), (split_on_char_token _ _ _ Hu).
  rewrite split_on_char_whole
    by (apply lacks_app; split; [reflexivity|done]).
  assert (Hp : String.prefix "HTTP/" ("HTTP/" +:+ v) = true)
    by (apply string_prefix_spec; eauto).
  rewrite Hp. cbn [negb].
  change ("HTTP/" +:+ v) with ("HTTP" +:+ String "/" v).
  rewrite (split_on_char_token "/" "HTTP" v eq_refl),
          (split_on_char_whole _ _ Hslash).
  cbn [take lookup list_lookup]. destruct v; [done|].
  by rewrite fromLatin1_toLatin1.
Qed.

Lemma foldr_toLatin1 (hs : list Buffer) :
  foldr (fun h acc => toLatin1 h +:+ CRLF +:+ acc) CRLF hs
  = foldr (fun h acc => h +:+ CRLF +:+ acc) CRLF (toLatin1 <$> hs).
Proof.
  induction hs as [|h hs IH]; [done|].
  cbn [fmap list_fmap foldr] in *. by rewrite IH.
Qed.

(** X15.  The parser accepts every header block in the wire format and
    gives back its parts: a method, target and version without spaces or
    line feeds (the version non-empty and without slash), and header lines
    that are non-empty, hold a colon and no line feed. *)
Theorem parse_well_formed_request (m : string) (u : Buffer) (v : string)
        (hs : list Buffer) :
  lacks " " m -> lacks LF m ->
  lacks " " (toLatin1 u) -> lacks LF (toLatin1 u) ->
  lacks " " v -> lacks LF v -> lacks "/" v -> v <> EmptyString ->
  Forall (fun h => h <> [] /\ colon ∈ h /\ lacks LF (toLatin1 h)) hs ->
  parseHTTPReq (headerBlock m u v hs) = Ok (mkHTTPReq m u v hs).
Proof.
  intros Hm Hm' Hu Hu' Hv Hv' Hslash Hne Hhs.
  set (rl := m +:+ " " +:+ toLatin1 u +:+ " HTTP/" +:+ v).
  assert (Hrl : lacks LF rl).
  { unfold rl. repeat (apply lacks_app; split); try done; reflexivity. }
  assert (Hlines : splitLines (headerBlock m u v hs)
                   = fromLatin1 rl :: hs ++ [[]; []]).
  { unfold splitLines, headerBlock. rewrite toLatin1_fromLatin1.
    rewrite foldr_toLatin1.
    replace (m +:+ " " +:+ toLatin1 u +:+ " HTTP/" +:+ v +:+ CRLF +:+
             foldr (fun h acc => h +:+ CRLF +:+ acc) CRLF (toLatin1 <$> hs))
      with (rl +:+ CRLF +:+
            foldr (fun h acc => h +:+ CRLF +:+ acc) CRLF (toLatin1 <$> hs))
      by (unfold rl; by rewrite !append_assoc).
    rewrite (split_on_crlf_line _ _ Hrl), split_on_crlf_block.
    - cbn [fmap list_fmap]. rewrite fmap_app, fmap_fromLatin1_toLatin1. done.
    - clear -Hhs. induction Hhs as [|h hs (_ & _ & Hh) _ IH]; [done|].
      cbn [fmap list_fmap]. by constructor. }
  unfold parseHTTPReq. rewrite Hlines. cbn [lookup list_lookup].
  unfold rl. rewrite parseRequestLine_tokens_ok by done.
  assert (Hslice : slice_1_m1 (fromLatin1 rl :: hs ++ [[]; []]) = hs ++ [[]]).
  { unfold slice_1_m1. cbn [drop].
    replace (hs ++ [[]; []]) with ((hs ++ [[]]) ++ [([] : Buffer)])
      by (by rewrite <-app_assoc).
    apply take_app_length'. cbn [length]. rewrite !length_app. simpl. lia. }
  fold rl. rewrite Hslice, collectHeaders_block; [done|].
  eapply Forall_impl; [exact Hhs|]. by intros h (? & ? & _).
Qed.

Lemma parse_well_formed_request_witness :
  parseHTTPReq
    (fromLatin1 ("POST /echo HTTP/1.1" +:+ CRLF +:+ "Host: a" +:+ CRLF
                 +:+ "Content-Length: 5" +:+ CRLF +:+ CRLF))
  = Ok (mkHTTPReq "POST" (fromLatin1 "/echo") "1.1"
                  [fromLatin1 "Host: a"; fromLatin1 "Content-Length: 5"]).
Proof.
  apply (parse_well_formed_request "POST" (fromLatin1 "/echo") "1.1"
           [fromLatin1 "Host: a"; fromLatin1 "Content-Length: 5"]);
    try reflexivity; try discriminate.
  apply Forall_cons. split; [|apply Forall_cons; split; [|apply Forall_nil_2]];
    (split; [discriminate|split; [|reflexivity]]);
    apply (bool_decide_unpack _); vm_compute; exact I.
Defined.

Lemma string_of_uint_lacks_LF (d : Decimal.uint) :
  lacks LF (NilEmpty.string_of_uint d).
Proof.
  induction d; cbn [NilEmpty.string_of_uint]; [reflexivity|..];
    (apply lacks_cons; split; [discriminate|done]).
Qed.

Lemma number_to_string_lacks_LF (n : Z) : lacks LF (number_to_string n).
Proof.
  unfold number_to_string, NilZero.string_of_int.
  destruct (Z.to_int n) as [d|d]; unfold NilZero.string_of_uint.
  - destruct d; try reflexivity; apply (string_of_uint_lacks_LF _).
  - apply lacks_cons. split; [discriminate|].
    destruct d; try reflexivity; apply (string_of_uint_lacks_LF _).
Qed.

(** X16.  Splitting an encoded header block at CRLF gives back the status
    line (with the fixed reason OK), then the header lines in order, then
    two empty lines, provided no header line holds a line feed. *)
Theorem encodeHTTPResp_lines (res : HTTPRes) :
  Forall (fun h => lacks LF (toLatin1 h)) (res_headers res) ->
  splitLines (encodeHTTPResp res)
  = fromLatin1 ("HTTP/1.1 " +:+ number_to_string (code res) +:+ " OK")
    :: res_headers res ++ [[]; []].
Proof.
  intros Hhs. rewrite encodeHTTPResp_layout. unfold splitLines.
  rewrite toLatin1_fromLatin1.
  replace ("HTTP/1.1 " +:+ number_to_string (code res) +:+ " OK" +:+ CRLF +:+
           foldr (fun h acc => h +:+ CRLF +:+ acc) CRLF
                 (toLatin1 <$> res_headers res))
    with (("HTTP/1.1 " +:+ number_to_string (code res) +:+ " OK") +:+ CRLF +:+
          foldr (fun h acc => h +:+ CRLF +:+ acc) CRLF
                (toLatin1 <$> res_headers res))
    by (by rewrite !append_assoc).
  rewrite split_on_crlf_line, split_on_crlf_block.
  - cbn [fmap list_fmap]. by rewrite fmap_app, fmap_fromLatin1_toLatin1.
  - clear -Hhs. induction Hhs as [|h hs Hh _ IH]; [done|].
    cbn [fmap list_fmap]. by constructor.
  - repeat (apply lacks_app; split); try reflexivity.
    apply number_to_string_lacks_LF.
Qed.

Lemma encodeHTTPResp_lines_witness :
  splitLines (encodeHTTPResp (withContentLength twoByteRes))
  = [fromLatin1 "HTTP/1.1 200 OK"; fromLatin1 "Server: x";
     fromLatin1 "Content-Length: 2"; []; []].
Proof.
  rewrite encodeHTTPResp_lines; [reflexivity|].
  apply Forall_cons. split; [reflexivity|].
  apply Forall_cons. split; [reflexivity|apply Forall_nil_2].
Defined.

(* ------------------------------------------------------------------ *)
(** * Further properties: the echo servers *)

Lemma singleton_prefix_lookup (x : byte) (l : Buffer) (j : nat) :
  [x] `prefix_of` drop j l <-> l !! j = Some x.
Proof.
  assert (E : l !! j = drop j l !! 0%nat)
    by (rewrite lookup_drop; f_equal; lia).
  rewrite E. split.
  - intros [k ->]. done.
  - destruct (drop j l) as [|y k]; [done|]. intros [= ->]. by exists k.
Qed.

(** X17.  On a well-formed buffer the line framer returns nothing, and
    leaves the buffer alone, exactly when no line feed is buffered; else
    it returns the first line with its line feed, a line that holds no
    other line feed, and leaves exactly the bytes after it. *)
Theorem line_cut_first_line (buf : DynBuf) :
  buf_wf buf ->
  match LineEcho.CutMessage buf with
  | (None, b') => b' = buf /\ (x0a ∉ occupied buf)
  | (Some msg, b') =>
      exists line,
        msg = line ++ [x0a] /\ (x0a ∉ line)
        /\ occupied buf = msg ++ occupied b'
        /\ buf_wf b'
  end.
Proof.
  intros Hwf. unfold LineEcho.CutMessage, indexOf, LineEcho.newline.
  destruct (find_from [x0a] (occupied buf) 0) as [i|] eqn:E.
  - destruct (find_from_Some _ _ _ E) as (Hp & Hlen & Hmin).
    cbn [length] in Hlen.
    destruct (Z.ltb_spec (Z.of_nat i) 0); [lia|].
    apply singleton_prefix_lookup in Hp.
    replace (Z.of_nat i + 1) with (Z.of_nat (i + 1)) by lia.
    assert (Hmsg : subarray (buf_data buf) 0 (Z.of_nat (i + 1))
                   = take (i + 1) (occupied buf)).
    { rewrite subarray_prefix, occupied_take, take_take. f_equal.
      rewrite occupied_length in Hlen by done. lia. }
    exists (take i (occupied buf)). rewrite Hmsg. split; [|split; [|split]].
    + rewrite Nat.add_1_r. by apply take_S_r.
    + intros Hin. apply list_elem_of_lookup in Hin as [j Hj].
      apply lookup_take_Some in Hj as [Hj Hlt].
      apply (Hmin j Hlt). by apply singleton_prefix_lookup.
    + rewrite bufPop_occupied; [by rewrite take_drop|done|].
      rewrite occupied_length in Hlen by done. lia.
    + by apply bufPop_wf.
  - destruct (Z.ltb_spec (-1) 0); [|lia]. split; [done|].
    intros Hin. apply list_elem_of_lookup in Hin as [j Hj].
    apply (find_from_None _ _ E j). by apply singleton_prefix_lookup.
Qed.

Lemma line_cut_first_line_witness :
  exists b',
    LineEcho.CutMessage (bufPush emptyBuf (fromLatin1 ("hi" +:+ NL +:+ "yo")))
    = (Some (fromLatin1 ("hi" +:+ NL)), b')
    /\ occupied b' = fromLatin1 "yo".
Proof.
  pose proof (line_cut_first_line
                (bufPush emptyBuf (fromLatin1 ("hi" +:+ NL +:+ "yo")))
                (bufPush_wf _ _)) as H.
  destruct (LineEcho.CutMessage _) as [[msg|] b'] eqn:E.
  - exists b'. vm_compute in E. injection E as <- <-.
    split; reflexivity.
  - vm_compute in E. discriminate E.
Defined.

(** One round of the echo loop: a chunk is read and written back. *)
Lemma echo_loop_round (fuel : nat) (conn : TCPConn) (d : Buffer)
      (evs : list SockEvent) :
  err conn = None -> ended conn = false ->
  incoming (socket conn) = EvData d :: evs -> d <> [] ->
  Forall (fun r => r = None) (write_results (socket conn)) ->
  Echo.serveLoop (S fuel) conn
  = Echo.serveLoop fuel
      (mkTCPConn
         (mkSocket true evs (written (socket conn) ++ [d])
                   (tail (write_results (socket conn)))
                   (destroyed (socket conn)))
         None false false).
Proof.
  intros Herr Hend Hin Hd Hok.
  cbn [Echo.serveLoop]. unfold Echo.awaitRead, Echo.soRead.
  rewrite Herr, Hend. cbn [socket set_paused incoming]. rewrite Hin.
  cbn [pump deliver]. unfold onData.
  cbn [reader negb outcome_of_settled].
  destruct (Nat.eqb_spec (length d) 0) as [Hz|_]; [by destruct d|].
  unfold Echo.soWrite, soWrite.
  cbn [err socket set_incoming set_paused write_results written paused
       incoming destroyed ended reader].
  destruct (write_results (socket conn)) as [|[e|] wr] eqn:Ew; [done| |done].
  by apply Forall_cons in Hok as [[=] _].
Qed.

Lemma echo_loop_replays (rest : list SockEvent) (ds : list Buffer) :
  forall (fuel : nat) (conn : TCPConn),
    err conn = None -> ended conn = false ->
    incoming (socket conn) = (EvData <$> ds) ++ EvEnd :: rest ->
    Forall (fun d => d <> []) ds ->
    Forall (fun r => r = None) (write_results (socket conn)) ->
    (length ds < fuel)%nat ->
    exists c',
      Echo.serveLoop fuel conn = (Done tt, c')
      /\ written (socket c') = written (socket conn) ++ ds
      /\ incoming (socket c') = rest
      /\ ended c' = true /\ err c' = None.
Proof.
  induction ds as [|d ds IH]; intros fuel conn Herr Hend Hin Hne Hok Hfuel;
    (destruct fuel as [|fuel]; [simpl in Hfuel; lia|]).
  - cbn [Echo.serveLoop]. unfold Echo.awaitRead, Echo.soRead.
    rewrite Herr, Hend. cbn [socket set_paused incoming]. rewrite Hin.
    cbn [fmap list_fmap app pump deliver]. unfold onEnd.
    cbn [reader outcome_of_settled length Nat.eqb].
    eexists. split; [reflexivity|].
    cbn [socket set_incoming set_paused written incoming ended err].
    by rewrite app_nil_r.
  - apply Forall_cons in Hne as [Hd Hne].
    rewrite (echo_loop_round fuel conn d ((EvData <$> ds) ++ EvEnd :: rest))
      by done.
    set (c2 := mkTCPConn _ _ _ _).
    assert (H5 : Forall (fun r => r = None) (write_results (socket c2))).
    { unfold c2. cbn [socket write_results].
      destruct (write_results (socket conn)) as [|r wr]; [done|].
      by apply Forall_cons in Hok as [_ Hok]. }
    assert (H6 : (length ds < fuel)%nat) by (simpl in Hfuel; lia).
    destruct (IH fuel c2 eq_refl eq_refl eq_refl Hne H5 H6)
      as (c' & Hrun & Hw & Hi & He & Hr).
    exists c'. split; [exact Hrun|]. split; [|done].
    rewrite Hw. unfold c2. cbn [socket written]. by rewrite <-app_assoc.
Qed.

(** X18.  The promise-based echo server writes back exactly the chunks it
    receives, in order: when the socket delivers the non-empty chunks [ds]
    and then the end, and every write is acknowledged, the connection
    handler returns with [ds] appended to what was written, the later
    events untouched and the socket destroyed. *)
Theorem echo_replays_chunks (fuel : nat) (s : Socket) (ds : list Buffer)
        (rest : list SockEvent) :
  incoming s = (EvData <$> ds) ++ EvEnd :: rest ->
  Forall (fun d => d <> []) ds ->
  Forall (fun r => r = None) (write_results s) ->
  (length ds < fuel)%nat ->
  exists c',
    Echo.newConn fuel s = (Done tt, c')
    /\ written (socket c') = written s ++ ds
    /\ incoming (socket c') = rest
    /\ destroyed (socket c') = true.
Proof.
  intros Hin Hne Hok Hfuel.
  destruct (echo_loop_replays rest ds fuel (soInit s))
    as (c' & Hrun & Hw & Hi & _); try done.
  unfold Echo.newConn, Echo.serveClient. rewrite Hrun.
  eexists. split; [reflexivity|]. done.
Qed.

Lemma echo_replays_chunks_witness :
  exists c',
    Echo.newConn 3
      (mkSocket true [EvData (fromLatin1 "ab"); EvData (fromLatin1 "c");
                      EvEnd; EvData (fromLatin1 "late")] [] [] false)
    = (Done tt, c')
    /\ written (socket c') = [fromLatin1 "ab"; fromLatin1 "c"]
    /\ incoming (socket c') = [EvData (fromLatin1 "late")].
Proof.
  edestruct (echo_replays_chunks 3
               (mkSocket true [EvData (fromLatin1 "ab"); EvData (fromLatin1 "c");
                               EvEnd; EvData (fromLatin1 "late")] [] [] false)
               [fromLatin1 "ab"; fromLatin1 "c"]
               [EvData (fromLatin1 "late")])
    as (c' & H1 & H2 & H3 & _).
  - reflexivity.
  - apply Forall_cons. split; [discriminate|].
    apply Forall_cons. split; [discriminate|apply Forall_nil_2].
  - apply Forall_nil_2.
  - simpl. lia.
  - exists c'. split; [exact H1|]. split; [exact H2|exact H3].
Defined.

(* ------------------------------------------------------------------ *)
(** * Further properties: keeping the connection alive *)

Lemma io_soWrite_incoming d w :
  incoming (socket (w_conn (snd (io_soWrite d w))))
  = incoming (socket (w_conn w)).
Proof.
  unfold io_soWrite, soWrite.
  by destruct (write_results (socket (w_conn w))) as [|[e|] rest].
Qed.

(** The body loop over a memory reader, when the writes go through. *)
Lemma writeBody_mem_run (fuel : nat) (r : BodyReader) (w : World) data done :
  writesOk w ->
  w_cells w !! body_cell r = Some (MemCell data done) ->
  (2 <= fuel)%nat ->
  exists w',
    writeBody fuel r w = (Done tt, w')
    /\ writesOk w' /\ w_buf w' = w_buf w
    /\ incoming (socket (w_conn w')) = incoming (socket (w_conn w))
    /\ wire w' = wire w ++ (if done then [] else
                            if (length data =? 0)%nat then [] else [data])
    /\ w_cells w' = <[body_cell r:=MemCell data true]> (w_cells w).
Proof.
  intros Hok Hcell Hfuel. destruct fuel as [|[|fuel]]; [lia..|].
  assert (Ha : (body_cell r < length (w_cells w))%nat)
    by (by eapply lookup_lt_Some).
  rewrite writeBody_S. destruct done.
  { rewrite (readBody_mem_done _ _ _ Hcell). exists w.
    rewrite app_nil_r, list_insert_id by done. done. }
  rewrite (readBody_mem_first _ _ _ Hcell).
  set (w1 := mkWorld _ _ _).
  destruct (Nat.eqb_spec (length data) 0) as [Hz|Hnz].
  { exists w1. by rewrite app_nil_r. }
  destruct (io_soWrite_writesOk data w1 Hok) as (w2 & Hw & Hok2 & Hwire & Hc & Hb).
  pose proof (io_soWrite_incoming data w1) as Hinc.
  rewrite Hw in *. cbn [snd] in Hinc.
  assert (Hc2 : w_cells w2 !! body_cell r = Some (MemCell data true)).
  { rewrite Hc. unfold w1. cbn [w_cells]. by rewrite list_lookup_insert_eq. }
  rewrite writeBody_S, (readBody_mem_done _ _ _ Hc2).
  exists w2. by rewrite Hb, Hinc, Hwire, Hc.
Qed.

(** Draining a memory reader without data. *)
Lemma drainBody_mem_empty (fuel : nat) (r : BodyReader) (w : World) done :
  w_cells w !! body_cell r = Some (MemCell [] done) ->
  (1 <= fuel)%nat ->
  exists w',
    drainBody fuel r w = (Done tt, w')
    /\ w_conn w' = w_conn w /\ w_buf w' = w_buf w.
Proof.
  intros Hcell Hfuel. destruct fuel as [|fuel]; [lia|].
  cbn [drainBody]. unfold bind. destruct done.
  - rewrite (readBody_mem_done _ _ _ Hcell). by exists w.
  - rewrite (readBody_mem_first _ _ _ Hcell). by eexists.
Qed.

(** X19.  After a GET request whose version is not 1.0, and with the
    writes going through, the serve loop has sent one complete response
    (an empty body for the target /echo, the 13 bytes of the default body
    otherwise) and goes on with the buffer exactly as the framer left it
    and without having read from the socket: requests that follow in the
    buffer are served next. *)
Theorem keep_alive_get (fuel : nat) (w w1 : World) (msg : HTTPReq) :
  io_cutMessage w = (Done (Some msg), w1) ->
  method msg = "GET" -> version msg <> "1.0" ->
  writesOk w -> (2 <= fuel)%nat ->
  let cs := if String.eqb (toLatin1 (uri msg)) "/echo" then []
            else [fromLatin1 ("hello world." +:+ NL)] in
  exists w2,
    serveLoop (S fuel) w = serveLoop fuel w2
    /\ w_buf w2 = w_buf w1
    /\ incoming (socket (w_conn w2)) = incoming (socket (w_conn w))
    /\ writesOk w2
    /\ wire w2
       = wire w ++
         fromLatin1
           ("HTTP/1.1 200 OK" +:+ CRLF +:+ "Server: my_first_http_server"
            +:+ CRLF +:+ "Content-Length: "
            +:+ number_to_string (Z.of_nat (length (concat cs)))
            +:+ CRLF +:+ CRLF) :: cs.
Proof.
  intros Hcut Hm Hv Hok Hfuel cs.
  assert (Hconn : w_conn w1 = w_conn w) by (by eapply io_cutMessage_conn).
  assert (Hok1 : writesOk w1) by (unfold writesOk; by rewrite Hconn).
  cbn [serveLoop]. unfold bind at 1. rewrite Hcut.
  assert (Hver : String.eqb (version msg) "1.0" = false)
    by (by apply String.eqb_neq).
  set (rb := mkBodyReader 0 (length (w_cells w1))).
  set (wa := mkWorld (w_conn w1) (w_buf w1) (w_cells w1 ++ [MemCell [] false])).
  assert (Hrd : readerFromReq msg w1 = (Done rb, wa)).
  { unfold readerFromReq. rewrite Hm. reflexivity. }
  assert (Hrb : w_cells wa !! body_cell rb = Some (MemCell [] false)).
  { unfold wa, rb. cbn [w_cells body_cell]. by rewrite lookup_app_r, Nat.sub_diag. }
  unfold bind at 1. rewrite Hrd.
  assert (Hstep : forall res wb wd,
    handleReq msg rb wa = (Done res, wb) ->
    io_writeHTTPResp fuel res wb = (Done tt, wd) ->
    (exists dn, w_cells wd !! body_cell rb = Some (MemCell [] dn)) ->
    exists w2,
      (let* res := handleReq msg rb in
       io_writeHTTPResp fuel res ;;
       (if String.eqb (version msg) "1.0" then ret tt
        else drainBody fuel rb ;; serveLoop fuel)) wa
      = serveLoop fuel w2
      /\ w_conn w2 = w_conn wd /\ w_buf w2 = w_buf wd).
  { intros res wb wd Hh Hwr [dn Hcell]. unfold bind at 1. rewrite Hh.
    unfold bind at 1. rewrite Hwr, Hver.
    destruct (drainBody_mem_empty fuel rb wd dn Hcell) as (w2 & Hdr & Hc2 & Hb2);
      [lia|].
    exists w2. unfold bind. by rewrite Hdr. }
  unfold handleReq in Hstep. unfold cs. clear cs.
  destruct (String.eqb (toLatin1 (uri msg)) "/echo") eqn:Eecho.
  - set (res := mkHTTPRes 200 [fromLatin1 "Server: my_first_http_server"] rb).
    destruct (io_soWrite_writesOk (encodeHTTPResp (withContentLength res)) wa Hok1)
      as (wc & Hw & Hokc & Hwire & Hc & Hb).
    pose proof (io_soWrite_incoming (encodeHTTPResp (withContentLength res)) wa)
      as Hinc. rewrite Hw in Hinc. cbn [snd] in Hinc.
    destruct (writeBody_mem_run fuel rb wc [] false Hokc)
      as (wd & Hrun & Hokd & Hbd & Hincd & Hwired & Hcd);
      [by rewrite Hc|done|].
    destruct (Hstep res wa wd) as (w2 & Heq & Hc2 & Hb2).
    + reflexivity.
    + unfold io_writeHTTPResp. rewrite writeHTTPResp_nonneg by (cbn; lia).
      unfold bind. rewrite Hw. cbn [body res]. by rewrite Hrun.
    + exists true. rewrite Hcd. apply list_lookup_insert_eq.
      rewrite Hc. by eapply lookup_lt_Some.
    + exists w2. unfold handleReq. rewrite Eecho. split; [exact Heq|].
      split; [by rewrite Hb2, Hbd, Hb|].
      split; [by rewrite Hc2, Hincd, Hinc, <-Hconn|].
      split; [unfold writesOk in *; by rewrite Hc2|].
      unfold wire at 1. rewrite Hc2. fold (wire wd).
      rewrite Hwired, Hwire. cbn [length Nat.eqb]. rewrite app_nil_r.
      unfold wire at 1. cbn [wa w_conn]. rewrite Hconn. fold (wire w).
      cbn [app]. f_equal. all: try f_equal.
      all: try (rewrite encodeHTTPResp_layout;
                unfold res, rb, withContentLength, contentLengthLine;
                cbn [code res_headers body body_length app fmap list_fmap
                     foldr concat length];
                by rewrite !toLatin1_fromLatin1).
  - set (data := fromLatin1 ("hello world." +:+ NL)).
    set (r2 := mkBodyReader (Z.of_nat (length data)) (length (w_cells wa))).
    set (wb := mkWorld (w_conn wa) (w_buf wa) (w_cells wa ++ [MemCell data false])).
    set (res := mkHTTPRes 200 [fromLatin1 "Server: my_first_http_server"] r2).
    destruct (io_soWrite_writesOk (encodeHTTPResp (withContentLength res)) wb Hok1)
      as (wc & Hw & Hokc & Hwire & Hc & Hb).
    pose proof (io_soWrite_incoming (encodeHTTPResp (withContentLength res)) wb)
      as Hinc. rewrite Hw in Hinc. cbn [snd] in Hinc.
    destruct (writeBody_mem_run fuel r2 wc data false Hokc)
      as (wd & Hrun & Hokd & Hbd & Hincd & Hwired & Hcd); [|done|].
    { rewrite Hc. unfold wb, r2. cbn [w_cells body_cell].
      by rewrite lookup_app_r, Nat.sub_diag. }
    destruct (Hstep res wb wd) as (w2 & Heq & Hc2 & Hb2).
    + reflexivity.
    + unfold io_writeHTTPResp. rewrite writeHTTPResp_nonneg by (cbn; lia).
      unfold bind. rewrite Hw. cbn [body res]. by rewrite Hrun.
    + exists false. rewrite Hcd, Hc.
      rewrite list_lookup_insert_ne.
      * unfold wb. cbn [w_cells]. rewrite lookup_app_l; [done|].
        by eapply lookup_lt_Some.
      * unfold r2, rb, wa. cbn [body_cell w_cells]. rewrite length_app.
        simpl. lia.
    + exists w2. unfold handleReq. rewrite Eecho. split; [exact Heq|].
      split; [by rewrite Hb2, Hbd, Hb|].
      split; [by rewrite Hc2, Hincd, Hinc, <-Hconn|].
      split; [unfold writesOk in *; by rewrite Hc2|].
      unfold wire at 1. rewrite Hc2. fold (wire wd).
      rewrite Hwired, Hwire.
      unfold wire at 1. cbn [wb wa w_conn]. rewrite Hconn. fold (wire w).
      rewrite <-app_assoc. cbn [app]. f_equal. all: try f_equal.
      all: try (rewrite encodeHTTPResp_layout;
                unfold res, r2, withContentLength, contentLengthLine;
                cbn [code res_headers body body_length app fmap list_fmap
                     foldr concat];
                rewrite app_nil_r; by rewrite !toLatin1_fromLatin1).
Qed.

Lemma keep_alive_get_witness :
  exists w2,
    serveLoop 3 (bufferedWorld twoKeepAliveRequests [EvEnd])
    = serveLoop 2 w2
    /\ occupied (w_buf w2) = fromLatin1 ("GET /b HTTP/1.1" +:+ CRLFCRLF)
    /\ wire w2
       = [fromLatin1 ("HTTP/1.1 200 OK" +:+ CRLF
                      +:+ "Server: my_first_http_server" +:+ CRLF
                      +:+ "Content-Length: 13" +:+ CRLF +:+ CRLF);
          fromLatin1 ("hello world." +:+ NL)].
Proof.
  edestruct (keep_alive_get 2 (bufferedWorld twoKeepAliveRequests [EvEnd]))
    as (w2 & H1 & H2 & _ & _ & H3).
  - vm_compute. reflexivity.
  - reflexivity.
  - discriminate.
  - apply Forall_nil_2.
  - lia.
  - exists w2. split; [exact H1|]. split; [rewrite H2|rewrite H3]; reflexivity.
Defined.

(* ------------------------------------------------------------------ *)
(** * Further properties: the stored error in the echo server *)

Lemma echoStep_err (conn : TCPConn) (s : ConnStep) (e : JsExn) :
  err conn = Some e -> noErrorEvent s -> err (echoStep conn s) = Some e.
Proof.
  intros He Hs. destruct s as [|[d| |e']]; cbn [echoStep deliver].
  - unfold Echo.soRead. by rewrite He.
  - unfold onData. by destruct (reader conn).
  - unfold onEnd. by destruct (reader conn).
  - by destruct (Hs e').
Qed.

(** X20.  In the echo server's [soRead] the stored error is tested first:
    once an error is stored, every read fails with it and leaves the
    connection as it is, after any further reads, data events and end
    events, whether or not the clean end has been seen. *)
Theorem echo_error_latched (conn : TCPConn) (e : JsExn)
        (steps : list ConnStep) :
  err conn = Some e -> Forall noErrorEvent steps ->
  Echo.soRead (echoSteps steps conn)
  = (Some (Rejected e), echoSteps steps conn).
Proof.
  intros He Hsteps.
  assert (Herr : err (echoSteps steps conn) = Some e).
  { revert conn He. induction Hsteps as [|s steps Hs _ IH]; intros conn He;
      [done|].
    cbn [echoSteps foldl]. apply IH. by apply echoStep_err. }
  unfold Echo.soRead. by rewrite Herr.
Qed.

Lemma echo_error_latched_witness :
  Echo.soRead (echoSteps [StepEvent EvEnd; StepRead] endThenError)
  = (Some (Rejected resetError),
     echoSteps [StepEvent EvEnd; StepRead] endThenError)
  /\ ended endThenError = true.
Proof.
  split; [|reflexivity].
  apply echo_error_latched; [reflexivity|].
  apply Forall_cons. split; [intros e; discriminate|].
  apply Forall_cons. split; [intros e; discriminate|apply Forall_nil_2].
Defined.
